(** * NodeScope core: entry capture, storage adapters, API layer, real-time heartbeat

    A shallow embedding of the TypeScript sources of [packages/core/src]:
    - [watchers/base.ts], [watchers/query.ts], [watchers/request.ts],
      [watchers/cache.ts], [watchers/http-client.ts], [watchers/log.ts],
      [watchers/event.ts], [watchers/job.ts];
    - [storage/memory.ts], [storage/sqlite.ts], [storage/mysql.ts],
      [storage/postgresql.ts], [storage/adapter.ts];
    - [server/api.ts] ([ApiHandler]) and [server/websocket.ts]
      ([RealTimeServer]);
    - [nodescope.ts] ([NodeScope.recordEntry]).

    Conventions of the embedding.
    - A JavaScript [Date] is its epoch-millisecond value, a [Z]; a
      [number] holding a status code, a duration or a size is a [Z]; counts
      and positions ([limit], [offset], [maxEntries]) are [nat].
    - Strings are Rocq strings read as sequences of ASCII characters, so the
      UTF-16 length and the UTF-8 byte length of a string coincide.
    - A function that may throw returns a [result]; an [async] function
      returns the [Outcome] its promise settles to.
    - [nanoid()], [new Date()] and [performance.now()] are read from an
      explicit environment record. *)

From Stdlib Require Import ZArith String Ascii DecimalString.
From stdpp Require Import base option list strings gmap sorting.

Set Warnings "-register-all".
Local Open Scope string_scope.
Local Open Scope list_scope.

(* ===================================================================== *)
(** * JavaScript values and the primitives the sources rely on *)
(* ===================================================================== *)

Module Js.

(** [String.prototype.toLowerCase] / [toUpperCase] on ASCII text. *)
Definition lower_ascii (c : ascii) : ascii :=
  let n := nat_of_ascii c in
  if (65 <=? n)%nat && (n <=? 90)%nat then ascii_of_nat (n + 32) else c.

Definition upper_ascii (c : ascii) : ascii :=
  let n := nat_of_ascii c in
  if (97 <=? n)%nat && (n <=? 122)%nat then ascii_of_nat (n - 32) else c.

Fixpoint map_string (f : ascii -> ascii) (s : string) : string :=
  match s with
  | EmptyString => EmptyString
  | String c s' => String (f c) (map_string f s')
  end.

Definition toLowerCase : string -> string := map_string lower_ascii.
Definition toUpperCase : string -> string := map_string upper_ascii.

(** [s.startsWith(p)] and [s.includes(sub)]. *)
Definition startsWith (s p : string) : bool := String.prefix p s.

Definition includes (s sub : string) : bool :=
  match String.index 0 sub s with
  | Some _ => true
  | None => false
  end.

(** [String.prototype.trim]: the ASCII white space and line terminators. *)
Definition is_ws (c : ascii) : bool :=
  let n := nat_of_ascii c in
  (n =? 32)%nat || ((9 <=? n)%nat && (n <=? 13)%nat).

Fixpoint trimStart (s : string) : string :=
  match s with
  | String c s' => if is_ws c then trimStart s' else s
  | EmptyString => EmptyString
  end.

Fixpoint trimEnd (s : string) : string :=
  match s with
  | EmptyString => EmptyString
  | String c s' =>
      match trimEnd s' with
      | EmptyString => if is_ws c then EmptyString else String c EmptyString
      | r => String c r
      end
  end.

Definition trim (s : string) : string := trimEnd (trimStart s).

(** Truthiness of a string: only the empty string is falsy. *)
Definition truthy (s : string) : bool := negb (String.eqb s "").

(** A possibly [undefined] string used as a condition: [if (x)]. *)
Definition truthy_opt (o : option string) : option string :=
  match o with
  | Some s => if truthy s then Some s else None
  | None => None
  end.

(** Template-literal rendering of an integral number. *)
Definition num_to_string (z : Z) : string :=
  NilZero.string_of_int (Z.to_int z).

(** Errors thrown by the platform or by the sources. *)
Inductive JsError :=
| TypeError (msg : string)
| Error (msg : string).

(** [error instanceof Error ? error.message : ...]; both classes above
    are instances of [Error]. *)
Definition message (e : JsError) : string :=
  match e with
  | TypeError m => m
  | Error m => m
  end.

(** Completion of a synchronous call: a value or a thrown error. *)
Inductive result (A : Type) :=
| Ok (a : A)
| Throw (e : JsError).
Arguments Ok {A} a.
Arguments Throw {A} e.

Definition bind {A B} (r : result A) (k : A -> result B) : result B :=
  match r with
  | Ok a => k a
  | Throw e => Throw e
  end.

(** [try { body } catch { handler }] for a synchronous body. *)
Definition try_catch {A} (body : result A) (handler : JsError -> A) : A :=
  match body with
  | Ok a => a
  | Throw e => handler e
  end.

(** The values a watcher can be handed as a body or a cache value.
    [JCircular] stands for an object whose property graph reaches itself:
    such a value has no finite tree form, and the sources observe it only
    through [JSON.stringify], which throws on it. *)
Inductive JsValue :=
| JUndefined
| JNull
| JBool (b : bool)
| JNum (n : Z)
| JStr (s : string)
| JBigInt (n : Z)
| JCircular
| JArr (xs : list JsValue)
| JObj (props : list (string * JsValue)).

(** The double-quote character. *)
Definition dquote : ascii := ascii_of_nat 34.

Definition hex_digit (n : nat) : ascii :=
  if (n <? 10)%nat then ascii_of_nat (48 + n) else ascii_of_nat (87 + n).

(** JSON escaping of one character of a string literal. *)
Definition escape_char (c : ascii) : string :=
  let n := nat_of_ascii c in
  if (n =? 34)%nat then String "\" (String dquote "")
  else if (n =? 92)%nat then "\\"
  else if (n =? 8)%nat then "\b"
  else if (n =? 9)%nat then "\t"
  else if (n =? 10)%nat then "\n"
  else if (n =? 12)%nat then "\f"
  else if (n =? 13)%nat then "\r"
  else if (n <? 32)%nat then
    "\u00" +:+ String (hex_digit (n / 16)) (String (hex_digit (n mod 16)) "")
  else String c "".

Fixpoint escape (s : string) : string :=
  match s with
  | EmptyString => EmptyString
  | String c s' => escape_char c +:+ escape s'
  end.

Definition quote (s : string) : string :=
  String dquote (escape s +:+ String dquote "").

Fixpoint join (sep : string) (l : list string) : string :=
  match l with
  | [] => ""
  | [x] => x
  | x :: l' => x +:+ sep +:+ join sep l'
  end.

(** [JSON.stringify(v)]: [Ok None] is the result [undefined], [Throw] a
    [TypeError].  An [undefined] array element prints as [null]; an
    [undefined] property is left out. *)
Fixpoint stringify (v : JsValue) : result (option string) :=
  match v with
  | JUndefined => Ok None
  | JNull => Ok (Some "null")
  | JBool true => Ok (Some "true")
  | JBool false => Ok (Some "false")
  | JNum n => Ok (Some (num_to_string n))
  | JStr s => Ok (Some (quote s))
  | JBigInt _ => Throw (TypeError "Do not know how to serialize a BigInt")
  | JCircular => Throw (TypeError "Converting circular structure to JSON")
  | JArr xs =>
      let fix elems (xs : list JsValue) : result (list string) :=
        match xs with
        | [] => Ok []
        | x :: xs' =>
            bind (stringify x) (fun o =>
            bind (elems xs') (fun rest =>
            Ok (default "null" o :: rest)))
        end in
      bind (elems xs) (fun parts => Ok (Some ("[" +:+ join "," parts +:+ "]")))
  | JObj props =>
      let fix members (ps : list (string * JsValue)) : result (list string) :=
        match ps with
        | [] => Ok []
        | (k, x) :: ps' =>
            bind (stringify x) (fun o =>
            bind (members ps') (fun rest =>
            Ok (match o with
                | Some s => (quote k +:+ ":" +:+ s) :: rest
                | None => rest
                end)))
        end in
      bind (members props) (fun parts => Ok (Some ("{" +:+ join "," parts +:+ "}")))
  end.

(** Property read [o.k] on an object value. *)
Fixpoint prop (k : string) (ps : list (string * JsValue)) : JsValue :=
  match ps with
  | [] => JUndefined
  | (k', v) :: ps' => if String.eqb k k' then v else prop k ps'
  end.

Definition get_prop (k : string) (v : JsValue) : JsValue :=
  match v with
  | JObj ps => prop k ps
  | _ => JUndefined
  end.

End Js.

Export Js.


(* ===================================================================== *)
(** * The entry model ([types.ts]) *)
(* ===================================================================== *)

Inductive EntryType :=
| request | query | cache | log | exception
| http_client | event | job | schedule | dump.

#[global] Instance EntryType_eq_dec : EqDecision EntryType.
Proof. solve_decision. Defined.

Record Entry := mkEntry {
  id : string;
  batchId : string;
  type : EntryType;
  content : JsValue;
  tags : list string;
  createdAt : Z;
  duration : option Z;
  memoryUsage : option Z;
}.

(** [ListOptions]: every field may be left [undefined]. *)
Record ListOptions := mkListOptions {
  o_type : option EntryType;
  o_batchId : option string;
  o_tags : option (list string);
  o_search : option string;
  o_before : option Z;
  o_after : option Z;
  o_limit : option nat;
  o_offset : option nat;
}.

Record PaginatedResult := mkPaginated {
  data : list Entry;
  total : nat;
  limit : nat;
  offset : nat;
  hasMore : bool;
}.

(** [tags.some((t) => e.tags.includes(t))] *)
Definition has_any_tag (ts : list string) (e : Entry) : bool :=
  existsb (fun t => bool_decide (t ∈ tags e)) ts.

(** [Array.prototype.sort] is stable; [sort_by le] inserts every element in
    front of the first one it may precede, which keeps equal elements in
    their original order. *)
Fixpoint insert_by {A} (le : A -> A -> bool) (x : A) (l : list A) : list A :=
  match l with
  | [] => [x]
  | y :: l' => if le x y then x :: y :: l' else y :: insert_by le x l'
  end.

Definition sort_by {A} (le : A -> A -> bool) (l : list A) : list A :=
  foldr (insert_by le) [] l.

(** [(a, b) => b.createdAt.getTime() - a.createdAt.getTime()]: newest first. *)
Definition newest_first (a b : Entry) : bool := (createdAt b <=? createdAt a)%Z.

(** [(a, b) => a.createdAt.getTime() - b.createdAt.getTime()]: oldest first. *)
Definition oldest_first (a b : Entry) : bool := (createdAt a <=? createdAt b)%Z.

(** [results.slice(offset, offset + limit)] *)
Definition slice {A} (off lim : nat) (l : list A) : list A :=
  take lim (drop off l).

(* ===================================================================== *)
(** * JavaScript [Map] and [Set]: insertion-ordered containers *)
(* ===================================================================== *)

(** A [Map<K, V>] is the list of its pairs in insertion order; setting a key
    that is present replaces the value in place, a new key goes last. *)
Section JsMap.
Context {K V : Type} `{EqDecision K}.

Fixpoint map_get (k : K) (m : list (K * V)) : option V :=
  match m with
  | [] => None
  | (k', v) :: m' => if decide (k = k') then Some v else map_get k m'
  end.

Fixpoint map_set (k : K) (v : V) (m : list (K * V)) : list (K * V) :=
  match m with
  | [] => [(k, v)]
  | (k', v') :: m' =>
      if decide (k = k') then (k, v) :: m' else (k', v') :: map_set k v m'
  end.

Fixpoint map_delete (k : K) (m : list (K * V)) : list (K * V) :=
  match m with
  | [] => []
  | (k', v') :: m' =>
      if decide (k = k') then m' else (k', v') :: map_delete k m'
  end.

Definition map_keys (m : list (K * V)) : list K := m.*1.
Definition map_values (m : list (K * V)) : list V := m.*2.

End JsMap.

(** A [Set<string>] is the list of its members in insertion order. *)
Definition set_add (x : string) (s : list string) : list string :=
  if decide (x ∈ s) then s else (s ++ [x])%list.

Definition set_delete (x : string) (s : list string) : list string :=
  filter (fun y => y ≠ x) s.

(* ===================================================================== *)
(** * [storage/memory.ts]: the bounded in-process backend *)
(* ===================================================================== *)

Module MemoryStorage.

Record state := mkState {
  entries : list (string * Entry);
  entriesByBatch : list (string * list string);
  entriesByType : list (EntryType * list string);
  maxEntries : nat;
}.

(** [constructor(options = {})]: [options.maxEntries ?? 1000]. *)
Definition new (maxEntries_opt : option nat) : state :=
  mkState [] [] [] (default 1000 maxEntries_opt).

Definition addToIndexes (e : Entry) (st : state) : state :=
  let byBatch :=
    map_set (batchId e)
      (set_add (id e) (default [] (map_get (batchId e) (entriesByBatch st))))
      (entriesByBatch st) in
  let byType :=
    map_set (type e)
      (set_add (id e) (default [] (map_get (type e) (entriesByType st))))
      (entriesByType st) in
  mkState (entries st) byBatch byType (maxEntries st).

Definition removeFromIndexes (e : Entry) (st : state) : state :=
  let byBatch :=
    match map_get (batchId e) (entriesByBatch st) with
    | Some ids => map_set (batchId e) (set_delete (id e) ids) (entriesByBatch st)
    | None => entriesByBatch st
    end in
  let byType :=
    match map_get (type e) (entriesByType st) with
    | Some ids => map_set (type e) (set_delete (id e) ids) (entriesByType st)
    | None => entriesByType st
    end in
  mkState (entries st) byBatch byType (maxEntries st).

Definition delete_entry (k : string) (st : state) : state :=
  mkState (map_delete k (entries st)) (entriesByBatch st) (entriesByType st)
          (maxEntries st).

(** One turn of the eviction loop for the key [iterator.next().value]
    returned: [if (oldestKey) { ... }] skips a key that is falsy. *)
Definition evict_key (st : state) (oldestKey : string) : state :=
  if truthy oldestKey then
    let st1 :=
      match map_get oldestKey (entries st) with
      | Some oldEntry => removeFromIndexes oldEntry st
      | None => st
      end in
    delete_entry oldestKey st1
  else st.

(** The eviction loop. The key iterator walks the map in insertion order and
    every deletion happens at a position it has passed, so turn [i] sees key
    [i] of the map as it was when the loop started; once the iterator is
    exhausted [next().value] is [undefined] and the turn does nothing.
    [Math.floor(maxEntries * 0.1)] is [maxEntries / 10]. *)
Definition evict (st : state) : state :=
  let toRemove := (maxEntries st / 10)%nat in
  foldl evict_key st (take toRemove (map_keys (entries st))).

Definition save (e : Entry) (st : state) : state :=
  let st1 :=
    if (maxEntries st <=? length (entries st))%nat then evict st else st in
  addToIndexes e
    (mkState (map_set (id e) e (entries st1)) (entriesByBatch st1)
             (entriesByType st1) (maxEntries st1)).

Definition saveBatch (es : list Entry) (st : state) : state :=
  foldl (fun s e => save e s) st es.

Definition find (k : string) (st : state) : option Entry :=
  map_get k (entries st).

(** [Array.from(ids).map((id) => this.entries.get(id)).filter(e => e !== undefined)] *)
Definition resolve (ids : list string) (st : state) : list Entry :=
  omap (fun k => map_get k (entries st)) ids.

Definition findByBatch (b : string) (st : state) : list Entry :=
  match map_get b (entriesByBatch st) with
  | None => []
  | Some ids => sort_by oldest_first (resolve ids st)
  end.

(** The loop [for (const [id, entry] of this.entries)] visits every pair of
    the map once; deleting the pair being visited does not disturb the rest
    of the walk. *)
Definition prune_step (beforeDate : Z) (acc : state * nat) (kv : string * Entry)
  : state * nat :=
  let '(st, pruned) := acc in
  if (createdAt kv.2 <? beforeDate)%Z
  then (delete_entry kv.1 (removeFromIndexes kv.2 st), S pruned)
  else (st, pruned).

Definition prune (beforeDate : Z) (st : state) : state * nat :=
  foldl (prune_step beforeDate) (st, 0%nat) (entries st).

Definition clear (st : state) : state := mkState [] [] [] (maxEntries st).

(** [stats().totalEntries] is [this.entries.size]. *)
Definition totalEntries (st : state) : nat := length (entries st).

(** The candidate set of [list]: the type index if [type] is given, else
    the batch index if [batchId] is truthy, else every entry. *)
Definition candidates (o : ListOptions) (st : state) : Datatypes.list Entry :=
  match o_type o with
  | Some ty =>
      match map_get ty (entriesByType st) with
      | Some ids => resolve ids st
      | None => []
      end
  | None =>
      match truthy_opt (o_batchId o) with
      | Some b =>
          match map_get b (entriesByBatch st) with
          | Some ids => resolve ids st
          | None => []
          end
      | None => map_values (entries st)
      end
  end.

(** [JSON.stringify(e.content).toLowerCase().includes(searchLower)]: the
    call throws when the content does not serialise, and when it serialises
    to [undefined], on which [toLowerCase] is read. *)
Definition search_matches (searchLower : string) (e : Entry) : result bool :=
  match stringify (content e) with
  | Ok (Some s) => Ok (includes (toLowerCase s) searchLower)
  | Ok None =>
      Throw (TypeError "Cannot read properties of undefined (reading 'toLowerCase')")
  | Throw err => Throw err
  end.

(** [Array.prototype.filter] with a callback that may throw. *)
Fixpoint filter_r {A} (p : A -> result bool) (l : Datatypes.list A)
  : result (Datatypes.list A) :=
  match l with
  | [] => Ok []
  | x :: l' =>
      bind (p x) (fun keep =>
      bind (filter_r p l') (fun rest =>
      Ok (if keep then x :: rest else rest)))
  end.

Definition apply_filters (o : ListOptions) (results : Datatypes.list Entry)
  : result (Datatypes.list Entry) :=
  let r1 :=
    match o_tags o with
    | Some ts => if (0 <? length ts)%nat
                 then filter (fun e => has_any_tag ts e) results else results
    | None => results
    end in
  bind
    match truthy_opt (o_search o) with
    | Some s => filter_r (search_matches (toLowerCase s)) r1
    | None => Ok r1
    end (fun r2 =>
  let r3 :=
    match o_before o with
    | Some b => filter (fun e => (createdAt e <? b)%Z) r2
    | None => r2
    end in
  Ok match o_after o with
     | Some a => filter (fun e => (a <? createdAt e)%Z) r3
     | None => r3
     end).

Definition list (o : ListOptions) (st : state) : result PaginatedResult :=
  let lim := default 50%nat (o_limit o) in
  let off := default 0%nat (o_offset o) in
  bind (apply_filters o (candidates o st)) (fun filtered =>
  let results := sort_by newest_first filtered in
  let total := length results in
  Ok (mkPaginated (slice off lim results) total lim off
                  (off + lim <? total)%nat)).

End MemoryStorage.

(* ===================================================================== *)
(** * The relational backends: shared table model *)
(* ===================================================================== *)

(** The three SQL backends keep one table whose primary key is [id]; a table
    is a finite map from the key to the other columns.  Only the statements
    the adapters issue are modelled, by their relational meaning:
    - the [created_at] column compares as the instant it stores (SQLite
      stores the ISO-8601 text, whose order is that of the instants for
      years 0000 to 9999);
    - [ORDER BY created_at] leaves the order of rows with equal keys to the
      engine; the model sorts the key-ordered row list stably;
    - the JSON columns hold what [JSON.parse(JSON.stringify(v))] gives. *)
Module Sql.

Record Row := mkRow {
  batch_id : string;
  r_type : EntryType;
  r_content : JsValue;
  r_tags : Datatypes.list string;
  created_at : Z;
  r_duration : option Z;
  memory_usage : option Z;
}.

(** [JSON.parse(JSON.stringify(v))]; [Ok None] when [stringify] gives
    [undefined]. *)
Fixpoint json_roundtrip (v : JsValue) : result (option JsValue) :=
  match v with
  | JUndefined => Ok None
  | JNull | JBool _ | JNum _ | JStr _ => Ok (Some v)
  | JBigInt _ => Throw (TypeError "Do not know how to serialize a BigInt")
  | JCircular => Throw (TypeError "Converting circular structure to JSON")
  | JArr xs =>
      let fix elems (xs : Datatypes.list JsValue) : result (Datatypes.list JsValue) :=
        match xs with
        | [] => Ok []
        | x :: xs' =>
            bind (json_roundtrip x) (fun o =>
            bind (elems xs') (fun rest =>
            Ok (default JNull o :: rest)))
        end in
      bind (elems xs) (fun ys => Ok (Some (JArr ys)))
  | JObj props =>
      let fix members (ps : Datatypes.list (string * JsValue))
        : result (Datatypes.list (string * JsValue)) :=
        match ps with
        | [] => Ok []
        | (k, x) :: ps' =>
            bind (json_roundtrip x) (fun o =>
            bind (members ps') (fun rest =>
            Ok (match o with
                | Some y => (k, y) :: rest
                | None => rest
                end)))
        end in
      bind (members props) (fun qs => Ok (Some (JObj qs)))
  end.

(** The bound parameter [JSON.stringify(entry.content)] of an insert; the
    column is [NOT NULL] and no driver binds [undefined]. *)
Definition content_param (v : JsValue) : result JsValue :=
  bind (json_roundtrip v) (fun o =>
  match o with
  | Some v' => Ok v'
  | None => Throw (TypeError "cannot bind undefined to a NOT NULL column")
  end).

(** The parameter list of the insert statements. *)
Definition row_of (e : Entry) : result Row :=
  bind (content_param (content e)) (fun c =>
  Ok (mkRow (batchId e) (type e) c (tags e) (createdAt e) (duration e)
            (memoryUsage e))).

Definition rowToEntry (k : string) (r : Row) : Entry :=
  mkEntry k (batch_id r) (r_type r) (r_content r) (r_tags r) (created_at r)
          (r_duration r) (memory_usage r).

(** [SELECT * FROM entries] *)
Definition rows (t : gmap string Row) : Datatypes.list Entry :=
  (fun kr => rowToEntry kr.1 kr.2) <$> map_to_list t.

(** [SELECT * FROM entries WHERE id = ?] *)
Definition select_by_id (k : string) (t : gmap string Row) : option Entry :=
  rowToEntry k <$> t !! k.

(** [INSERT OR REPLACE INTO entries ...]: a row with the same key is
    replaced as a whole. *)
Definition insert_or_replace (e : Entry) (t : gmap string Row)
  : result (gmap string Row) :=
  bind (row_of e) (fun r => Ok (<[id e := r]> t)).

(** [INSERT ... ON DUPLICATE KEY UPDATE] / [ON CONFLICT (id) DO UPDATE SET]
    with the four assignments [content], [tags], [duration],
    [memory_usage]: the other columns of a row that exists are kept. *)
Definition insert_or_update (e : Entry) (t : gmap string Row)
  : result (gmap string Row) :=
  bind (row_of e) (fun r =>
  Ok match t !! id e with
     | Some old =>
         <[id e := mkRow (batch_id old) (r_type old) (r_content r) (r_tags r)
                         (created_at old) (r_duration r) (memory_usage r)]> t
     | None => <[id e := r]> t
     end).

(** A transaction over a list of inserts: the first failure rolls the whole
    batch back, which leaves the table as it was. *)
Fixpoint insert_all (ins : Entry -> gmap string Row -> result (gmap string Row))
    (es : Datatypes.list Entry) (t : gmap string Row) : result (gmap string Row) :=
  match es with
  | [] => Ok t
  | e :: es' => bind (ins e t) (insert_all ins es')
  end.

(** [DELETE FROM entries WHERE created_at < ?] and its count of deleted
    rows. *)
Definition delete_before (cutoff : Z) (t : gmap string Row)
  : gmap string Row * nat :=
  (filter (fun kr => ¬ (created_at kr.2 < cutoff)%Z) t,
   length (filter (fun e => (createdAt e <? cutoff)%Z) (rows t))).

(** [SELECT * FROM entries WHERE batch_id = ? ORDER BY created_at ASC] *)
Definition select_batch (b : string) (t : gmap string Row) : Datatypes.list Entry :=
  sort_by oldest_first (filter (fun e => batchId e = b) (rows t)).

(** The conjuncts every backend adds to [1=1] for [type], [batchId],
    [before], [after] and [search]; [like] is the text-matching operator of
    the engine applied to the pattern [%search%] and the content column. *)
Definition where_clause (like : string -> JsValue -> bool) (o : ListOptions)
    (e : Entry) : bool :=
  match o_type o with Some ty => bool_decide (type e = ty) | None => true end
  && match truthy_opt (o_batchId o) with
     | Some b => bool_decide (batchId e = b) | None => true end
  && match o_before o with Some b => (createdAt e <? b)%Z | None => true end
  && match o_after o with Some a => (a <? createdAt e)%Z | None => true end
  && match truthy_opt (o_search o) with
     | Some s => like s (content e) | None => true end.

(** [tags && tags.length > 0] *)
Definition tags_given (o : ListOptions) : option (Datatypes.list string) :=
  match o_tags o with
  | Some ts => if (0 <? length ts)%nat then Some ts else None
  | None => None
  end.

(** [SELECT COUNT( * ) ... WHERE w] and
    [SELECT * ... WHERE w ORDER BY created_at DESC LIMIT ? OFFSET ?]. *)
Definition select_count (w : Entry -> bool) (t : gmap string Row) : nat :=
  length (filter (fun e => w e) (rows t)).

Definition select_page (w : Entry -> bool) (lim off : nat) (t : gmap string Row)
  : Datatypes.list Entry :=
  take lim (drop off (sort_by newest_first (filter (fun e => w e) (rows t)))).

End Sql.

(** * [storage/sqlite.ts] *)
Module SQLiteStorage.

Definition save (e : Entry) (t : gmap string Sql.Row) :=
  Sql.insert_or_replace e t.

Definition saveBatch (es : Datatypes.list Entry) (t : gmap string Sql.Row) :=
  Sql.insert_all Sql.insert_or_replace es t.

Definition find (k : string) (t : gmap string Sql.Row) : option Entry :=
  Sql.select_by_id k t.

(** The tag filter runs in application code, on the page read back, after
    [total] was counted by the query. *)
Definition list (like : string -> JsValue -> bool) (o : ListOptions)
    (t : gmap string Sql.Row) : PaginatedResult :=
  let lim := default 50%nat (o_limit o) in
  let off := default 0%nat (o_offset o) in
  let w := Sql.where_clause like o in
  let total := Sql.select_count w t in
  let data := Sql.select_page w lim off t in
  let filteredData :=
    match Sql.tags_given o with
    | Some ts => filter (fun e => has_any_tag ts e) data
    | None => data
    end in
  mkPaginated filteredData total lim off (off + lim <? total)%nat.

Definition findByBatch (b : string) (t : gmap string Sql.Row) :=
  Sql.select_batch b t.

Definition prune (beforeDate : Z) (t : gmap string Sql.Row) :=
  Sql.delete_before beforeDate t.

Definition clear (t : gmap string Sql.Row) : gmap string Sql.Row := ∅.

End SQLiteStorage.

(** * [storage/mysql.ts] *)
Module MySQLStorage.

Definition save (e : Entry) (t : gmap string Sql.Row) :=
  Sql.insert_or_update e t.

Definition saveBatch (es : Datatypes.list Entry) (t : gmap string Sql.Row) :=
  Sql.insert_all Sql.insert_or_update es t.

Definition find (k : string) (t : gmap string Sql.Row) : option Entry :=
  Sql.select_by_id k t.

Definition list (like : string -> JsValue -> bool) (o : ListOptions)
    (t : gmap string Sql.Row) : PaginatedResult :=
  let lim := default 50%nat (o_limit o) in
  let off := default 0%nat (o_offset o) in
  let w := Sql.where_clause like o in
  let total := Sql.select_count w t in
  let data := Sql.select_page w lim off t in
  let data :=
    match Sql.tags_given o with
    | Some ts => filter (fun e => has_any_tag ts e) data
    | None => data
    end in
  mkPaginated data total lim off (off + lim <? total)%nat.

Definition findByBatch (b : string) (t : gmap string Sql.Row) :=
  Sql.select_batch b t.

Definition prune (beforeDate : Z) (t : gmap string Sql.Row) :=
  Sql.delete_before beforeDate t.

Definition clear (t : gmap string Sql.Row) : gmap string Sql.Row := ∅.

End MySQLStorage.

(** * [storage/postgresql.ts] *)
Module PostgreSQLStorage.

Definition save (e : Entry) (t : gmap string Sql.Row) :=
  Sql.insert_or_update e t.

Definition saveBatch (es : Datatypes.list Entry) (t : gmap string Sql.Row) :=
  Sql.insert_all Sql.insert_or_update es t.

Definition find (k : string) (t : gmap string Sql.Row) : option Entry :=
  Sql.select_by_id k t.

(** Here the tag filter is a conjunct of the query, [tags ?| $n]. *)
Definition list (like : string -> JsValue -> bool) (o : ListOptions)
    (t : gmap string Sql.Row) : PaginatedResult :=
  let lim := default 50%nat (o_limit o) in
  let off := default 0%nat (o_offset o) in
  let w := fun e =>
    Sql.where_clause like o e
    && match Sql.tags_given o with
       | Some ts => has_any_tag ts e
       | None => true
       end in
  let total := Sql.select_count w t in
  mkPaginated (Sql.select_page w lim off t) total lim off
              (off + lim <? total)%nat.

Definition findByBatch (b : string) (t : gmap string Sql.Row) :=
  Sql.select_batch b t.

Definition prune (beforeDate : Z) (t : gmap string Sql.Row) :=
  Sql.delete_before beforeDate t.

Definition clear (t : gmap string Sql.Row) : gmap string Sql.Row := ∅.

End PostgreSQLStorage.

(* ===================================================================== *)
(** * The storage contract over the four backends ([storage/adapter.ts]) *)
(* ===================================================================== *)

Inductive Storage :=
| Memory (st : MemoryStorage.state)
| SQLite (t : gmap string Sql.Row)
| MySQL (t : gmap string Sql.Row)
| PostgreSQL (t : gmap string Sql.Row).

Module StorageAdapter.

Definition save (e : Entry) (s : Storage) : result Storage :=
  match s with
  | Memory st => Ok (Memory (MemoryStorage.save e st))
  | SQLite t => bind (SQLiteStorage.save e t) (fun t' => Ok (SQLite t'))
  | MySQL t => bind (MySQLStorage.save e t) (fun t' => Ok (MySQL t'))
  | PostgreSQL t => bind (PostgreSQLStorage.save e t) (fun t' => Ok (PostgreSQL t'))
  end.

Definition find (k : string) (s : Storage) : option Entry :=
  match s with
  | Memory st => MemoryStorage.find k st
  | SQLite t => SQLiteStorage.find k t
  | MySQL t => MySQLStorage.find k t
  | PostgreSQL t => PostgreSQLStorage.find k t
  end.

Definition list (like : string -> JsValue -> bool) (o : ListOptions)
    (s : Storage) : result PaginatedResult :=
  match s with
  | Memory st => MemoryStorage.list o st
  | SQLite t => Ok (SQLiteStorage.list like o t)
  | MySQL t => Ok (MySQLStorage.list like o t)
  | PostgreSQL t => Ok (PostgreSQLStorage.list like o t)
  end.

Definition findByBatch (b : string) (s : Storage) : Datatypes.list Entry :=
  match s with
  | Memory st => MemoryStorage.findByBatch b st
  | SQLite t => SQLiteStorage.findByBatch b t
  | MySQL t => MySQLStorage.findByBatch b t
  | PostgreSQL t => PostgreSQLStorage.findByBatch b t
  end.

Definition prune (beforeDate : Z) (s : Storage) : Storage * nat :=
  match s with
  | Memory st =>
      let r := MemoryStorage.prune beforeDate st in (Memory r.1, r.2)
  | SQLite t => let r := SQLiteStorage.prune beforeDate t in (SQLite r.1, r.2)
  | MySQL t => let r := MySQLStorage.prune beforeDate t in (MySQL r.1, r.2)
  | PostgreSQL t =>
      let r := PostgreSQLStorage.prune beforeDate t in (PostgreSQL r.1, r.2)
  end.

(** The entries a backend holds, as [find] sees them. *)
Definition stored (s : Storage) : Datatypes.list Entry :=
  match s with
  | Memory st => map_values (MemoryStorage.entries st)
  | SQLite t | MySQL t | PostgreSQL t => Sql.rows t
  end.

End StorageAdapter.

(** The stored entries a [list] request selects: every filter of the
    request applied to an entry, with the text search of the backend. *)
Definition matches_request (like : string -> JsValue -> bool) (o : ListOptions)
    (e : Entry) : bool :=
  match o_type o with Some ty => bool_decide (type e = ty) | None => true end
  && match o_batchId o with Some b => bool_decide (batchId e = b) | None => true end
  && match o_tags o with
     | Some ts => (length ts =? 0)%nat || has_any_tag ts e
     | None => true
     end
  && match o_search o with Some s => like s (content e) | None => true end
  && match o_before o with Some b => (createdAt e <? b)%Z | None => true end
  && match o_after o with Some a => (a <? createdAt e)%Z | None => true end.

(** A map in which every key occurs once, as a JavaScript [Map] has it. *)
Definition wf_storage (s : Storage) : Prop :=
  match s with
  | Memory st => NoDup (map_keys (MemoryStorage.entries st))
  | _ => True
  end.

(* ===================================================================== *)
(** * Watchers ([watchers/*.ts]) *)
(* ===================================================================== *)

(** What the platform hands a watcher while it builds one entry: the two
    [nanoid()] results in call order, [new Date()] and [performance.now()]. *)
Record Env := mkEnv {
  nanoid_first : string;
  nanoid_second : string;
  date_now : Z;
  performance_now : Z;
}.

Definition opt_str (o : option string) : JsValue :=
  match o with Some s => JStr s | None => JUndefined end.

Definition opt_num (o : option Z) : JsValue :=
  match o with Some n => JNum n | None => JUndefined end.

Definition headers_json (h : list (string * string)) : JsValue :=
  JObj ((fun kv => (kv.1, JStr kv.2)) <$> h).

(** [BaseWatcher.createEntry(content, options)] *)
Definition createEntry (ty : EntryType) (content : JsValue)
    (batchId : option string) (tags : option (list string))
    (duration memoryUsage : option Z) (env : Env) : Entry :=
  mkEntry (nanoid_first env) (default (nanoid_second env) batchId) ty content
          (default [] tags) (date_now env) duration memoryUsage.

(** ** [watchers/query.ts] *)
Module QueryWatcher.

Definition DEFAULT_SLOW_THRESHOLD : Z := 100.

Record QueryWatcherOptions := mkOptions {
  o_enabled : option bool;
  o_slowThreshold : option Z;
}.

Record watcher := mkWatcher {
  enabled : bool;
  slowThreshold : Z;
}.

Definition new (options : QueryWatcherOptions) : watcher :=
  mkWatcher (default true (o_enabled options))
            (default DEFAULT_SLOW_THRESHOLD (o_slowThreshold options)).

Record QueryData := mkData {
  d_batchId : option string;
  sql : string;
  bindings : option (list JsValue);
  connection : option string;
  database : option string;
  d_duration : Z;
  rowCount : option Z;
}.

Definition extractQueryType (sql : string) : option string :=
  let normalized := toLowerCase (trim sql) in
  if startsWith normalized "select" then Some "select"
  else if startsWith normalized "insert" then Some "insert"
  else if startsWith normalized "update" then Some "update"
  else if startsWith normalized "delete" then Some "delete"
  else if startsWith normalized "create" then Some "create"
  else if startsWith normalized "alter" then Some "alter"
  else if startsWith normalized "drop" then Some "drop"
  else None.

Definition record (w : watcher) (d : QueryData) (env : Env) : Entry :=
  let slow := (slowThreshold w <? d_duration d)%Z in
  let content := JObj [
    ("sql", JStr (sql d));
    ("bindings", JArr (default [] (bindings d)));
    ("connection", JStr (default "default" (connection d)));
    ("database", opt_str (database d));
    ("slow", JBool slow);
    ("rowCount", opt_num (rowCount d)) ] in
  let tags := if slow then ["slow"] else [] in
  let tags :=
    match extractQueryType (sql d) with
    | Some queryType => (tags ++ ["query:" +:+ queryType])%list
    | None => tags
    end in
  createEntry query content (d_batchId d) (Some tags) (Some (d_duration d))
              None env.

End QueryWatcher.

(** ** [watchers/request.ts] *)
Module RequestWatcher.

Definition DEFAULT_SIZE_LIMIT : Z := 64.
Definition DEFAULT_HIDE_HEADERS : list string :=
  ["authorization"; "cookie"; "set-cookie"].

Record RequestWatcherOptions := mkOptions {
  o_enabled : option bool;
  o_sizeLimit : option Z;
  o_ignorePaths : option (list string);
  o_captureBody : option bool;
  o_captureResponse : option bool;
  o_hideHeaders : option (list string);
}.

Definition default_options : RequestWatcherOptions :=
  mkOptions None None None None None None.

(** [Required<RequestWatcherOptions>] as the constructor fills it. *)
Record watcher := mkWatcher {
  enabled : bool;
  sizeLimit : Z;
  ignorePaths : list string;
  captureBody : bool;
  captureResponse : bool;
  hideHeaders : list string;
}.

Definition new (options : RequestWatcherOptions) : watcher :=
  mkWatcher (default true (o_enabled options))
            (default DEFAULT_SIZE_LIMIT (o_sizeLimit options))
            (default ["/_nodescope"; "/favicon.ico"] (o_ignorePaths options))
            (default true (o_captureBody options))
            (default true (o_captureResponse options))
            (default DEFAULT_HIDE_HEADERS (o_hideHeaders options)).

Record ResponseData := mkResponse {
  status : Z;
  r_headers : list (string * string);
  r_body : JsValue;
}.

Record RequestData := mkData {
  d_batchId : string;
  startTime : Z;
  method : string;
  url : string;
  path : string;
  d_query : JsValue;
  headers : list (string * string);
  body : JsValue;
  ip : option string;
  userAgent : option string;
  session : JsValue;
  response : ResponseData;
  middleware : option (list string);
  controllerAction : option string;
}.

(** The part of [RequestEntryContent] that [generateTags] reads, with the
    whole content as the object stored in the entry. *)
Record RequestEntryContent := mkContent {
  c_method : string;
  c_status : Z;
  c_json : JsValue;
}.

Definition filterHeaders (w : watcher) (h : list (string * string))
  : list (string * string) :=
  (fun kv =>
     if bool_decide (toLowerCase kv.1 ∈ hideHeaders w)
     then (kv.1, "[HIDDEN]") else kv) <$> h.

(** [Buffer.byteLength(serialized, 'utf8')]; the argument [undefined] is a
    [TypeError]. *)
Definition byteLength (serialized : option string) : result Z :=
  match serialized with
  | Some s => Ok (Z.of_nat (String.length s))
  | None => Throw (TypeError "The string argument must be of type string")
  end.

(** [Math.round(bytes / 1024)] *)
Definition round_kb (bytes : Z) : Z := ((bytes + 512) / 1024)%Z.

(** No [try] surrounds the serialisation here. *)
Definition truncateBody (w : watcher) (body : JsValue) : result JsValue :=
  match body with
  | JUndefined | JNull => Ok body
  | _ =>
      bind (stringify body) (fun serialized =>
      bind (byteLength serialized) (fun bytes =>
      if (sizeLimit w * 1024 <? bytes)%Z then
        Ok (JStr ("[TRUNCATED - " +:+ num_to_string (round_kb bytes)
                  +:+ "KB exceeds " +:+ num_to_string (sizeLimit w)
                  +:+ "KB limit]"))
      else Ok body))
  end.

Definition getBodySize (body : JsValue) : option Z :=
  match body with
  | JUndefined | JNull => None
  | _ =>
      try_catch
        (bind (stringify body) (fun s =>
         bind (byteLength s) (fun n => Ok (Some n))))
        (fun _ => None)
  end.

Definition generateTags (content : RequestEntryContent) : list string :=
  let tags := ["method:" +:+ c_method content;
               "status:" +:+ num_to_string (c_status content)] in
  let tags := if (400 <=? c_status content)%Z then (tags ++ ["error"])%list else tags in
  if (500 <=? c_status content)%Z then (tags ++ ["server-error"])%list else tags.

(** [record] returns [Ok None] for [null]. *)
Definition record (w : watcher) (d : RequestData) (env : Env)
  : result (option Entry) :=
  if existsb (fun p => startsWith (path d) p) (ignorePaths w) then Ok None
  else
    let duration := (performance_now env - startTime d)%Z in
    let filteredHeaders := filterHeaders w (headers d) in
    let filteredResponseHeaders := filterHeaders w (r_headers (response d)) in
    bind (if captureBody w then truncateBody w (body d) else Ok JUndefined)
      (fun requestBody =>
    bind (if captureResponse w then truncateBody w (r_body (response d))
          else Ok JUndefined)
      (fun responseBody =>
    let content :=
      mkContent (toUpperCase (method d)) (status (response d))
        (JObj [
          ("method", JStr (toUpperCase (method d)));
          ("url", JStr (url d));
          ("path", JStr (path d));
          ("query", d_query d);
          ("headers", headers_json filteredHeaders);
          ("body", requestBody);
          ("ip", opt_str (ip d));
          ("userAgent", opt_str (userAgent d));
          ("session", session d);
          ("response", JObj [
             ("status", JNum (status (response d)));
             ("headers", headers_json filteredResponseHeaders);
             ("body", responseBody);
             ("size", opt_num (getBodySize (r_body (response d)))) ]);
          ("middleware",
           match middleware d with
           | Some ms => JArr (JStr <$> ms)
           | None => JUndefined
           end);
          ("controllerAction", opt_str (controllerAction d)) ]) in
    Ok (Some (createEntry request (c_json content) (Some (d_batchId d))
                (Some (generateTags content)) (Some duration) None env)))).

End RequestWatcher.

(** ** [watchers/cache.ts] *)
Module CacheWatcher.

Inductive CacheOperation := op_get | op_set | op_delete | op_hit | op_miss | op_flush.

Definition operation_name (op : CacheOperation) : string :=
  match op with
  | op_get => "get" | op_set => "set" | op_delete => "delete"
  | op_hit => "hit" | op_miss => "miss" | op_flush => "flush"
  end.

Record CacheData := mkData {
  d_batchId : option string;
  key : string;
  value : JsValue;
  operation : CacheOperation;
  driver : option string;
  ttl : option Z;
  d_tags : option (list string);
  d_duration : option Z;
}.

(** [serialized.length] on [undefined] is a [TypeError], caught like the
    one [JSON.stringify] throws. *)
Definition truncateValue (value : JsValue) : JsValue :=
  match value with
  | JUndefined | JNull => value
  | _ =>
      try_catch
        (bind (stringify value) (fun serialized =>
         match serialized with
         | Some s =>
             if (1024 <? String.length s)%nat
             then Ok (JStr ("[TRUNCATED - "
                            +:+ num_to_string (Z.of_nat (String.length s))
                            +:+ " bytes]"))
             else Ok value
         | None =>
             Throw (TypeError "Cannot read properties of undefined (reading 'length')")
         end))
        (fun _ => JStr "[UNSERIALIZABLE]")
  end.

Definition record (d : CacheData) (env : Env) : Entry :=
  let content := JObj [
    ("key", JStr (key d));
    ("value", truncateValue (value d));
    ("operation", JStr (operation_name (operation d)));
    ("driver", JStr (default "unknown" (driver d)));
    ("ttl", opt_num (ttl d));
    ("tags", match d_tags d with
             | Some ts => JArr (JStr <$> ts)
             | None => JUndefined
             end) ] in
  let entryTags := ["operation:" +:+ operation_name (operation d)] in
  let entryTags :=
    match operation d with
    | op_hit => (entryTags ++ ["hit"])%list
    | op_miss => (entryTags ++ ["miss"])%list
    | _ => entryTags
    end in
  createEntry cache content (d_batchId d) (Some entryTags) (d_duration d)
              None env.

End CacheWatcher.

(** ** [watchers/http-client.ts] *)
Module HttpClientWatcher.

Definition DEFAULT_SIZE_LIMIT : Z := 64.

Record watcher := mkWatcher {
  enabled : bool;
  sizeLimit : Z;
}.

Definition new (o_enabled : option bool) (o_sizeLimit : option Z) : watcher :=
  mkWatcher (default true o_enabled) (default DEFAULT_SIZE_LIMIT o_sizeLimit).

Record HttpClientData := mkData {
  d_batchId : option string;
  method : string;
  url : string;
  headers : list (string * string);
  body : JsValue;
  status : Z;
  r_headers : list (string * string);
  r_body : JsValue;
  d_duration : Z;
}.

Definition sanitizeHeaders (h : list (string * string)) : list (string * string) :=
  let sensitiveHeaders := ["authorization"; "cookie"; "x-api-key"; "api-key"] in
  (fun kv =>
     if bool_decide (toLowerCase kv.1 ∈ sensitiveHeaders)
     then (kv.1, "[HIDDEN]") else kv) <$> h.

(** The same steps as [RequestWatcher.truncateBody], inside [try]. *)
Definition truncateBody (w : watcher) (body : JsValue) : JsValue :=
  match body with
  | JUndefined | JNull => body
  | _ =>
      try_catch
        (bind (stringify body) (fun serialized =>
         bind (RequestWatcher.byteLength serialized) (fun bytes =>
         if (sizeLimit w * 1024 <? bytes)%Z then
           Ok (JStr ("[TRUNCATED - "
                     +:+ num_to_string (RequestWatcher.round_kb bytes) +:+ "KB]"))
         else Ok body)))
        (fun _ => JStr "[UNSERIALIZABLE]")
  end.

(** [url_host] is [new URL(data.url).host], [None] when the constructor
    throws. *)
Definition record (url_host : string -> option string) (w : watcher)
    (d : HttpClientData) (env : Env) : Entry :=
  let m := toUpperCase (method d) in
  let content := JObj [
    ("method", JStr m);
    ("url", JStr (url d));
    ("headers", headers_json (sanitizeHeaders (headers d)));
    ("body", truncateBody w (body d));
    ("response", JObj [
       ("status", JNum (status d));
       ("headers", headers_json (r_headers d));
       ("body", truncateBody w (r_body d));
       ("size", opt_num (RequestWatcher.getBodySize (r_body d))) ]) ] in
  let tags := ["method:" +:+ m; "status:" +:+ num_to_string (status d)] in
  let tags := if (400 <=? status d)%Z then (tags ++ ["error"])%list else tags in
  let tags :=
    match url_host (url d) with
    | Some host => (tags ++ ["host:" +:+ host])%list
    | None => tags
    end in
  createEntry http_client content (d_batchId d) (Some tags)
              (Some (d_duration d)) None env.

End HttpClientWatcher.

(* ===================================================================== *)
(** * Promises and [async] functions *)
(* ===================================================================== *)

(** What a promise settles to. *)
Inductive Outcome (A : Type) :=
| Fulfilled (a : A)
| Rejected (e : JsError).
Arguments Fulfilled {A} a.
Arguments Rejected {A} e.

(** The operand of a [return] statement of an [async] function: a plain
    value, or a promise handed over without [await]. *)
Inductive Returned (A : Type) :=
| Value (a : A)
| Promise (p : Outcome A).
Arguments Value {A} a.
Arguments Promise {A} p.

(** [await p] inside a body: the fulfilment value, or the rejection thrown
    at the place of the [await]. *)
Definition await {A} (p : Outcome A) : result A :=
  match p with
  | Fulfilled a => Ok a
  | Rejected e => Throw e
  end.

(** The promise of an [async] function whose body completes with [body]: a
    returned value fulfils it, a throw rejects it, and a returned promise is
    adopted, which settles the result after the body, with its [try]
    blocks, has been left. *)
Definition async {A} (body : result (Returned A)) : Outcome A :=
  match body with
  | Ok (Value a) => Fulfilled a
  | Ok (Promise p) => p
  | Throw e => Rejected e
  end.

(** [try { body } catch (error) { handler }] around statements that
    complete by [return] or by a throw. *)
Definition try_returning {A} (body : result (Returned A))
    (handler : JsError -> result (Returned A)) : result (Returned A) :=
  match body with
  | Ok r => Ok r
  | Throw e => handler e
  end.

(* ===================================================================== *)
(** * [server/api.ts]: the Query/API layer *)
(* ===================================================================== *)

Record StorageStats := mkStats {
  totalEntries : nat;
  entriesByType : list (EntryType * nat);
  oldestEntry : option Z;
  newestEntry : option Z;
}.

Module ApiHandler.

(** A query-string value: [string | string[]]. *)
Inductive QueryValue :=
| QString (s : string)
| QArray (l : list string).

Record ApiRequest := mkRequest {
  method : string;
  url : string;
  query : list (string * QueryValue);
  body : JsValue;
}.

(** The filter object [listEntries] builds.  A date is [None] when it is an
    invalid [Date], a number is [None] when it is [NaN]. *)
Record RequestedOptions := mkRequested {
  q_type : option string;
  q_batchId : option string;
  q_search : option string;
  q_tags : option (list string);
  q_before : option (option Z);
  q_after : option (option Z);
  q_limit : option (option Z);
  q_offset : option (option Z);
}.

(** The storage adapter as the handler sees it: the promise every call
    settles to. *)
Record Adapter := mkAdapter {
  list : RequestedOptions -> Outcome PaginatedResult;
  find : string -> Outcome (option Entry);
  findByBatch : string -> Outcome (Datatypes.list Entry);
  stats : Outcome StorageStats;
  clear : Outcome unit;
  prune : option Z -> Outcome nat;
}.

(** Platform services: the pathname of [new URL(url, 'http://localhost')]
    (the constructor throws on a URL it cannot parse), the [Date] parser,
    [Date.now()]. *)
Record Platform := mkPlatform {
  url_pathname : string -> result string;
  date_parse : string -> option Z;
  now : Z;
}.

Inductive ApiBody :=
| BError (error : string)
| BList (r : PaginatedResult)
| BEntry (e : Entry)
| BBatch (batchId : string) (entries : Datatypes.list Entry)
| BStats (s : StorageStats)
| BCleared
| BPruned (pruned : nat) (hours : option Z).

Record ApiResponse := mkResponse {
  status : Z;
  r_body : ApiBody;
}.

Definition lookup_query (k : string) (req : ApiRequest) : option QueryValue :=
  map_get k (query req).

(** [if (req.query.k)]: an array is truthy, a string unless it is empty. *)
Definition given (k : string) (req : ApiRequest) : option QueryValue :=
  match lookup_query k req with
  | Some (QString s) => if truthy s then Some (QString s) else None
  | Some (QArray l) => Some (QArray l)
  | None => None
  end.

(** [String(v)] *)
Definition to_String (v : QueryValue) : string :=
  match v with
  | QString s => s
  | QArray l => join "," l
  end.

Definition digit_of (c : ascii) : option Z :=
  let n := nat_of_ascii c in
  if (48 <=? n)%nat && (n <=? 57)%nat then Some (Z.of_nat (n - 48)) else None.

Fixpoint parse_digits (acc : option Z) (s : string) : option Z :=
  match s with
  | EmptyString => acc
  | String c s' =>
      match digit_of c with
      | Some d => parse_digits (Some (default 0 acc * 10 + d)%Z) s'
      | None => acc
      end
  end.

(** [parseInt(s, 10)]: [None] is [NaN]. *)
Definition parseInt (s : string) : option Z :=
  match trimStart s with
  | String "-" s' => Z.opp <$> parse_digits None s'
  | String "+" s' => parse_digits None s'
  | s' => parse_digits None s'
  end.

Definition listEntries (pf : Platform) (storage : Adapter) (req : ApiRequest)
  : Outcome ApiResponse :=
  let options := mkRequested
    (to_String <$> given "type" req)
    (to_String <$> given "batchId" req)
    (to_String <$> given "search" req)
    ((fun v => match v with
               | QArray l => l
               | QString s => [s]
               end) <$> given "tags" req)
    ((fun v => date_parse pf (to_String v)) <$> given "before" req)
    ((fun v => date_parse pf (to_String v)) <$> given "after" req)
    ((fun v => parseInt (to_String v)) <$> given "limit" req)
    ((fun v => parseInt (to_String v)) <$> given "offset" req) in
  async (bind (await (list storage options)) (fun result =>
         Ok (Value (mkResponse 200 (BList result))))).

Definition getEntry (storage : Adapter) (k : string) : Outcome ApiResponse :=
  async (bind (await (find storage k)) (fun entry =>
         match entry with
         | None => Ok (Value (mkResponse 404 (BError "Entry not found")))
         | Some e => Ok (Value (mkResponse 200 (BEntry e)))
         end)).

Definition getBatch (storage : Adapter) (b : string) : Outcome ApiResponse :=
  async (bind (await (findByBatch storage b)) (fun entries =>
         Ok (Value (mkResponse 200 (BBatch b entries))))).

Definition getStats (storage : Adapter) : Outcome ApiResponse :=
  async (bind (await (stats storage)) (fun s =>
         Ok (Value (mkResponse 200 (BStats s))))).

Definition clearEntries (storage : Adapter) : Outcome ApiResponse :=
  async (bind (await (clear storage)) (fun _ =>
         Ok (Value (mkResponse 200 BCleared)))).

(** [body?.hours ?? 24], with [body] cast to [{ hours?: number }]; for a
    value outside that type the model takes the cutoff to be an invalid
    [Date]. *)
Definition hours_of (body : JsValue) : option Z :=
  match get_prop "hours" body with
  | JUndefined | JNull => Some 24%Z
  | JNum n => Some n
  | _ => None
  end.

Definition pruneEntries (pf : Platform) (storage : Adapter) (req : ApiRequest)
  : Outcome ApiResponse :=
  let hours := hours_of (body req) in
  let beforeDate := (fun h => now pf - h * 60 * 60 * 1000)%Z <$> hours in
  async (bind (await (prune storage beforeDate)) (fun pruned =>
         Ok (Value (mkResponse 200 (BPruned pruned hours))))).

(** [path.match(/^\/api\/entries\/[^/]+$/)] for the prefix given: what
    follows the prefix is not empty and holds no slash. *)
Fixpoint no_slash (s : string) : bool :=
  match s with
  | EmptyString => true
  | String c s' => negb (Ascii.eqb c "/") && no_slash s'
  end.

Definition matches_segment (prefix path : string) : bool :=
  let rest := String.substring (String.length prefix)
                (String.length path - String.length prefix) path in
  startsWith path prefix && truthy rest && no_slash rest.

(** [path.split('/').pop()] *)
Fixpoint last_segment (acc : string) (s : string) : string :=
  match s with
  | EmptyString => acc
  | String c s' =>
      if Ascii.eqb c "/" then last_segment "" s'
      else last_segment (acc +:+ String c "") s'
  end.

(** [handle]: the route handlers are returned as they are, so each
    [return this.handler(...)] hands their promise over. *)
Definition handle (pf : Platform) (storage : Adapter) (req : ApiRequest)
  : Outcome ApiResponse :=
  async (
    bind (url_pathname pf (url req)) (fun path =>
    try_returning
      (if String.eqb (method req) "GET" && String.eqb path "/api/entries"
       then Ok (Promise (listEntries pf storage req))
       else if String.eqb (method req) "GET"
               && matches_segment "/api/entries/" path
       then Ok (Promise (getEntry storage (last_segment "" path)))
       else if String.eqb (method req) "GET"
               && matches_segment "/api/batch/" path
       then Ok (Promise (getBatch storage (last_segment "" path)))
       else if String.eqb (method req) "GET" && String.eqb path "/api/stats"
       then Ok (Promise (getStats storage))
       else if String.eqb (method req) "DELETE" && String.eqb path "/api/entries"
       then Ok (Promise (clearEntries storage))
       else if String.eqb (method req) "POST" && String.eqb path "/api/prune"
       then Ok (Promise (pruneEntries pf storage req))
       else Ok (Value (mkResponse 404 (BError "Not found"))))
      (fun error => Ok (Value (mkResponse 500 (BError (message error))))))).

(** Whether a request selects one of the six routes. *)
Definition matched_route (req : ApiRequest) (path : string) : bool :=
  (String.eqb (method req) "GET"
   && (String.eqb path "/api/entries" || matches_segment "/api/entries/" path
       || matches_segment "/api/batch/" path || String.eqb path "/api/stats"))
  || (String.eqb (method req) "DELETE" && String.eqb path "/api/entries")
  || (String.eqb (method req) "POST" && String.eqb path "/api/prune").

End ApiHandler.

(* ===================================================================== *)
(** * [server/websocket.ts]: the heartbeat of the real-time server *)
(* ===================================================================== *)

Module RealTimeServer.

(** The timers of the platform: [setInterval] registers a periodic task and
    returns a fresh handle, [clearInterval] removes the task of a handle. *)
Record Timers := mkTimers {
  next_handle : nat;
  active : list (nat * Z);
}.

Definition setInterval (ms : Z) (tm : Timers) : nat * Timers :=
  (next_handle tm,
   mkTimers (S (next_handle tm)) (active tm ++ [(next_handle tm, ms)])%list).

Definition clearInterval (h : nat) (tm : Timers) : Timers :=
  mkTimers (next_handle tm) (filter (fun t => t.1 ≠ h) (active tm)).

(** The fields of the server the heartbeat touches, with the timers. *)
Record state := mkState {
  heartbeatInterval : option nat;
  heartbeatMs : Z;
  timers : Timers;
}.

(** [constructor(options = {})]: [options.heartbeatInterval ?? 30000]. *)
Definition new (o_heartbeatInterval : option Z) (tm : Timers) : state :=
  mkState None (default 30000%Z o_heartbeatInterval) tm.

(** A timer handle is an object, hence truthy. *)
Definition startHeartbeat (s : state) : state :=
  match heartbeatInterval s with
  | Some _ => s
  | None =>
      let r := setInterval (heartbeatMs s) (timers s) in
      mkState (Some r.1) (heartbeatMs s) r.2
  end.

Definition stopHeartbeat (s : state) : state :=
  match heartbeatInterval s with
  | Some h => mkState None (heartbeatMs s) (clearInterval h (timers s))
  | None => s
  end.

(** The periodic tasks the server has running. *)
Definition scheduled (s : state) : nat := length (active (timers s)).

End RealTimeServer.

(* ===================================================================== *)
(** * [stats], [clear] and [saveBatch] over the four backends *)
(* ===================================================================== *)

Module Statistics.

(** The ten entry types in the order [defaultEntryCounts] lists them. *)
Definition all_types : list EntryType :=
  [request; query; cache; log; exception; http_client; event; job; schedule;
   dump].

(** [defaultEntryCounts()] ([storage/adapter.ts]): an object with every type
    as a key and the count 0. *)
Definition defaultEntryCounts : list (EntryType * nat) :=
  (fun ty => (ty, 0%nat)) <$> all_types.

(** [entriesByType[entry.type]++]; every type is a key of the object, so
    the value read is a number. *)
Definition count_entry (counts : list (EntryType * nat)) (e : Entry)
  : list (EntryType * nat) :=
  map_set (type e) (S (default 0%nat (map_get (type e) counts))) counts.

(** [if (!oldestEntry || entry.createdAt < oldestEntry) oldestEntry = entry.createdAt];
    a [Date] is truthy whatever instant it holds. *)
Definition older (oldestEntry : option Z) (e : Entry) : option Z :=
  match oldestEntry with
  | None => Some (createdAt e)
  | Some t => if (createdAt e <? t)%Z then Some (createdAt e) else Some t
  end.

Definition newer (newestEntry : option Z) (e : Entry) : option Z :=
  match newestEntry with
  | None => Some (createdAt e)
  | Some t => if (t <? createdAt e)%Z then Some (createdAt e) else Some t
  end.

(** [MemoryStorage.stats] *)
Definition memory_stats (st : MemoryStorage.state) : StorageStats :=
  let values := map_values (MemoryStorage.entries st) in
  mkStats (length (MemoryStorage.entries st))
          (foldl count_entry defaultEntryCounts values)
          (foldl older None values)
          (foldl newer None values).

(** [SELECT type, COUNT( * ) as count FROM entries GROUP BY type]: one row
    for every type that occurs. *)
Definition group_by_type (t : gmap string Sql.Row) : list (EntryType * nat) :=
  omap (fun ty =>
          let n := length (filter (fun e => type e = ty) (Sql.rows t)) in
          if (0 <? n)%nat then Some (ty, n) else None)
       all_types.

(** [SELECT MIN(created_at)] and [SELECT MAX(created_at)]: [NULL] on an
    empty table. *)
Definition min_created_at (t : gmap string Sql.Row) : option Z :=
  foldl older None (Sql.rows t).

Definition max_created_at (t : gmap string Sql.Row) : option Z :=
  foldl newer None (Sql.rows t).

(** [stats] of the three relational backends: the rows of the grouped count
    are written over the default counts, [oldest ? new Date(oldest) : undefined]
    keeps a value that is not [NULL]. *)
Definition sql_stats (t : gmap string Sql.Row) : StorageStats :=
  mkStats (length (Sql.rows t))
          (foldl (fun counts row => map_set row.1 row.2 counts)
                 defaultEntryCounts (group_by_type t))
          (min_created_at t)
          (max_created_at t).

Definition stats (s : Storage) : StorageStats :=
  match s with
  | Memory st => memory_stats st
  | SQLite t | MySQL t | PostgreSQL t => sql_stats t
  end.

(** [clear] *)
Definition clear (s : Storage) : Storage :=
  match s with
  | Memory st => Memory (MemoryStorage.clear st)
  | SQLite t => SQLite (SQLiteStorage.clear t)
  | MySQL t => MySQL (MySQLStorage.clear t)
  | PostgreSQL t => PostgreSQL (PostgreSQLStorage.clear t)
  end.

(** [saveBatch] *)
Definition saveBatch (es : list Entry) (s : Storage) : result Storage :=
  match s with
  | Memory st => Ok (Memory (MemoryStorage.saveBatch es st))
  | SQLite t => bind (SQLiteStorage.saveBatch es t) (fun t' => Ok (SQLite t'))
  | MySQL t => bind (MySQLStorage.saveBatch es t) (fun t' => Ok (MySQL t'))
  | PostgreSQL t =>
      bind (PostgreSQLStorage.saveBatch es t) (fun t' => Ok (PostgreSQL t'))
  end.

End Statistics.

(* ===================================================================== *)
(** * Plain JSON data *)
(* ===================================================================== *)

(** Induction over [JsValue] that reaches the elements of arrays and the
    values of properties. *)
Section JsValueInduction.
Variable P : JsValue → Prop.
Hypothesis HUndefined : P JUndefined.
Hypothesis HNull : P JNull.
Hypothesis HBool : ∀ b, P (JBool b).
Hypothesis HNum : ∀ n, P (JNum n).
Hypothesis HStr : ∀ s, P (JStr s).
Hypothesis HBigInt : ∀ n, P (JBigInt n).
Hypothesis HCircular : P JCircular.
Hypothesis HArr : ∀ xs, Forall P xs → P (JArr xs).
Hypothesis HObj : ∀ ps, Forall (fun kv => P kv.2) ps → P (JObj ps).

Fixpoint JsValue_nested_ind (v : JsValue) : P v :=
  match v with
  | JUndefined => HUndefined
  | JNull => HNull
  | JBool b => HBool b
  | JNum n => HNum n
  | JStr s => HStr s
  | JBigInt n => HBigInt n
  | JCircular => HCircular
  | JArr xs =>
      HArr xs
        ((fix go (xs : list JsValue) : Forall P xs :=
            match xs with
            | [] => List.Forall_nil P
            | x :: xs' => List.Forall_cons P x xs' (JsValue_nested_ind x) (go xs')
            end) xs)
  | JObj ps =>
      HObj ps
        ((fix go (ps : list (string * JsValue))
            : Forall (fun kv => P kv.2) ps :=
            match ps with
            | [] => List.Forall_nil _
            | kv :: ps' =>
                List.Forall_cons (fun kv => P kv.2) kv ps'
                                 (JsValue_nested_ind kv.2) (go ps')
            end) ps)
  end.

End JsValueInduction.


(* ===================================================================== *)
(** * [server/websocket.ts]: the clients of the real-time server *)
(* ===================================================================== *)

Module RealTimeClients.

(** What the server reads of a [WebSocketClient]: [readyState], and the
    error [send] throws, if it throws. *)
Record Socket := mkSocket {
  readyState : Z;
  send_error : option JsError;
}.

(** The [Set] of clients, each named by its identity, with the frames the
    [send] calls have delivered, in order. *)
Record state := mkState {
  clients : list string;
  sent : list (string * string);
}.

Definition new : state := mkState [] [].

Definition clientCount (st : state) : nat := length (clients st).

Definition handleDisconnection (ws : string) (st : state) : state :=
  mkState (set_delete ws (clients st)) (sent st).

(** [JSON.stringify] of an object is a string or a throw; the text of
    [undefined] stands for the result it does not have. *)
Definition serialise (message : list (string * JsValue)) : result string :=
  bind (stringify (JObj message)) (fun data => Ok (default "undefined" data)).

(** [sendTo]: no [try] surrounds [send]. *)
Definition sendTo (socket : string -> Socket) (ws : string)
    (message : list (string * JsValue)) (st : state) : state * result unit :=
  if (readyState (socket ws) =? 1)%Z then
    match serialise message with
    | Ok data =>
        match send_error (socket ws) with
        | None => (mkState (clients st) (sent st ++ [(ws, data)])%list, Ok tt)
        | Some e => (st, Throw e)
        end
    | Throw e => (st, Throw e)
    end
  else (st, Ok tt).

Definition handleConnection (socket : string -> Socket) (ws : string)
    (st : state) : state * result unit :=
  let st1 := mkState (set_add ws (clients st)) (sent st) in
  sendTo socket ws
    [("type", JStr "connected");
     ("clients", JNum (Z.of_nat (length (clients st1))))] st1.

(** One turn of [for (const client of this.clients)]: deleting the client
    being visited leaves the rest of the walk as it is. *)
Definition broadcast_step (socket : string -> Socket) (data : string)
    (st : state) (client : string) : state :=
  if (readyState (socket client) =? 1)%Z then
    match send_error (socket client) with
    | None => mkState (clients st) (sent st ++ [(client, data)])%list
    | Some _ => mkState (set_delete client (clients st)) (sent st)
    end
  else st.

(** [broadcast]: the message is serialised before the loop, outside its
    [try]. *)
Definition broadcast (socket : string -> Socket)
    (message : list (string * JsValue)) (st : state) : state * result unit :=
  match serialise message with
  | Ok data => (foldl (broadcast_step socket data) st (clients st), Ok tt)
  | Throw e => (st, Throw e)
  end.

Definition type_name (ty : EntryType) : string :=
  match ty with
  | request => "request" | query => "query" | cache => "cache"
  | log => "log" | exception => "exception" | http_client => "http_client"
  | event => "event" | job => "job" | schedule => "schedule"
  | dump => "dump"
  end.

(** An entry as [JSON.stringify] walks it: the properties in the order
    [createEntry] writes them, [createdAt] through [Date.prototype.toJSON]
    ([toISOString]). *)
Definition entry_json (toISOString : Z -> string) (e : Entry) : JsValue :=
  JObj [("id", JStr (id e));
        ("batchId", JStr (batchId e));
        ("type", JStr (type_name (type e)));
        ("content", content e);
        ("tags", JArr (JStr <$> tags e));
        ("createdAt", JStr (toISOString (createdAt e)));
        ("duration", opt_num (duration e));
        ("memoryUsage", opt_num (memoryUsage e))].

Definition broadcastEntry (toISOString : Z -> string)
    (socket : string -> Socket) (entry : Entry) (st : state)
  : state * result unit :=
  broadcast socket
    [("type", JStr "entry"); ("data", entry_json toISOString entry)] st.

End RealTimeClients.

(* ===================================================================== *)
(** * [nodescope.ts]: recording an entry *)
(* ===================================================================== *)

Module NodeScope.

(** The part of the configuration [recordEntry] reads; [filter] and [tag]
    are callbacks that return. *)
Record Config := mkConfig {
  enabled : bool;
  filter : option (Entry -> bool);
  tag : option (Entry -> list string);
  realtime : bool;
}.

(** An initialised instance: its storage adapter and its real-time
    server. *)
Record state := mkState {
  storage : Storage;
  realTimeServer : RealTimeClients.state;
}.

(** [entry.tags = [...entry.tags, ...customTags]] *)
Definition with_tags (e : Entry) (ts : list string) : Entry :=
  mkEntry (id e) (batchId e) (type e) (content e) ts (createdAt e)
          (duration e) (memoryUsage e).

(** [recordEntry]: the state it leaves and what its promise settles to. *)
Definition recordEntry (toISOString : Z -> string)
    (socket : string -> RealTimeClients.Socket) (config : Config)
    (entry : Entry) (ns : state) : state * Outcome unit :=
  if negb (enabled config) then (ns, Fulfilled tt)
  else if match filter config with
          | Some f => negb (f entry)
          | None => false
          end then (ns, Fulfilled tt)
  else
    let entry :=
      match tag config with
      | Some t => with_tags entry (tags entry ++ t entry)%list
      | None => entry
      end in
    match StorageAdapter.save entry (storage ns) with
    | Throw e => (ns, Rejected e)
    | Ok saved =>
        if realtime config then
          let r := RealTimeClients.broadcastEntry toISOString socket entry
                     (realTimeServer ns) in
          (mkState saved r.1,
           match r.2 with
           | Ok _ => Fulfilled tt
           | Throw e => Rejected e
           end)
        else (mkState saved (realTimeServer ns), Fulfilled tt)
    end.

End NodeScope.

(* ===================================================================== *)
(** * [watchers/log.ts], [watchers/event.ts], [watchers/job.ts] *)
(* ===================================================================== *)

Module LogWatcher.

Inductive LogLevel := debug | info | warn | error.

Definition level_name (l : LogLevel) : string :=
  match l with
  | debug => "debug" | info => "info" | warn => "warn" | error => "error"
  end.

Definition LOG_LEVEL_PRIORITY (l : LogLevel) : Z :=
  match l with
  | debug => 0 | info => 1 | warn => 2 | error => 3
  end.

Record watcher := mkWatcher {
  enabled : bool;
  minLevel : LogLevel;
}.

(** [constructor(options = {})] *)
Definition new (o_enabled : option bool) (o_level : option LogLevel) : watcher :=
  mkWatcher (default true o_enabled) (default debug o_level).

Record LogData := mkData {
  d_batchId : option string;
  level : LogLevel;
  message : string;
  context : JsValue;
  channel : option string;
}.

(** [record] returns [None] for [null]. *)
Definition record (w : watcher) (d : LogData) (env : Env) : option Entry :=
  if (LOG_LEVEL_PRIORITY (level d) <? LOG_LEVEL_PRIORITY (minLevel w))%Z
  then None
  else
    let content := JObj [
      ("level", JStr (level_name (level d)));
      ("message", JStr (message d));
      ("context", context d);
      ("channel", opt_str (channel d)) ] in
    let tags := ["level:" +:+ level_name (level d)] in
    let tags :=
      match level d with
      | error => (tags ++ ["error"])%list
      | _ => tags
      end in
    let tags :=
      match truthy_opt (channel d) with
      | Some c => (tags ++ ["channel:" +:+ c])%list
      | None => tags
      end in
    Some (createEntry log content (d_batchId d) (Some tags) None None env).

End LogWatcher.

Module EventWatcher.

Record watcher := mkWatcher {
  enabled : bool;
  ignorePatterns : list string;
}.

(** [constructor(options = {})] *)
Definition new (o_enabled : option bool) (o_ignore : option (list string))
  : watcher :=
  mkWatcher (default true o_enabled) (default [] o_ignore).

Record Broadcast := mkBroadcast {
  b_channel : string;
  b_event : string;
}.

Record EventData := mkData {
  d_batchId : option string;
  name : string;
  payload : JsValue;
  listeners : option (list string);
  broadcast : option Broadcast;
}.

(** [record] returns [None] for [null]. *)
Definition record (w : watcher) (d : EventData) (env : Env) : option Entry :=
  if existsb (fun pattern => includes (name d) pattern) (ignorePatterns w)
  then None
  else
    let content := JObj [
      ("name", JStr (name d));
      ("payload", payload d);
      ("listeners", JArr (JStr <$> default [] (listeners d)));
      ("broadcast",
       match broadcast d with
       | Some b => JObj [("channel", JStr (b_channel b));
                         ("event", JStr (b_event b))]
       | None => JUndefined
       end) ] in
    let tags := ["event:" +:+ name d] in
    let tags :=
      match broadcast d with
      | Some b => (tags ++ ["broadcast"; "channel:" +:+ b_channel b])%list
      | None => tags
      end in
    Some (createEntry event content (d_batchId d) (Some tags) None None env).

End EventWatcher.

Module JobWatcher.

Inductive JobStatus := pending | processing | completed | failed.

Definition status_name (s : JobStatus) : string :=
  match s with
  | pending => "pending" | processing => "processing"
  | completed => "completed" | failed => "failed"
  end.

Record JobData := mkData {
  d_batchId : option string;
  name : string;
  queue : option string;
  data : JsValue;
  status : JobStatus;
  attempts : option Z;
  maxAttempts : option Z;
  error : option string;
  d_duration : option Z;
}.

Definition record (d : JobData) (env : Env) : Entry :=
  let queue_name := default "default" (queue d) in
  let content := JObj [
    ("name", JStr (name d));
    ("queue", JStr queue_name);
    ("data", data d);
    ("status", JStr (status_name (status d)));
    ("attempts", JNum (default 1%Z (attempts d)));
    ("maxAttempts", opt_num (maxAttempts d));
    ("error", opt_str (error d)) ] in
  let tags := ["status:" +:+ status_name (status d);
               "queue:" +:+ queue_name;
               "job:" +:+ name d] in
  let tags :=
    match status d with
    | failed => (tags ++ ["failed"])%list
    | _ => tags
    end in
  createEntry job content (d_batchId d) (Some tags) (d_duration d) None env.

(** The closure [createJobTracker] returns: its captured arguments and the
    counter [attempts], which starts at 0. *)
Record tracker := mkTracker {
  t_name : string;
  t_batchId : option string;
  t_queue : option string;
  t_data : JsValue;
  t_maxAttempts : option Z;
  t_attempts : Z;
}.

Definition createJobTracker (name : string) (batchId queue : option string)
    (data : JsValue) (maxAttempts : option Z) : tracker :=
  mkTracker name batchId queue data maxAttempts 0.

(** [start]: [attempts++], then the record. *)
Definition start (t : tracker) (env : Env) : tracker * Entry :=
  let attempts := (t_attempts t + 1)%Z in
  (mkTracker (t_name t) (t_batchId t) (t_queue t) (t_data t)
             (t_maxAttempts t) attempts,
   record (mkData (t_batchId t) (t_name t) (t_queue t) (t_data t) processing
                  (Some attempts) (t_maxAttempts t) None None) env).

Definition complete (t : tracker) (duration : option Z) (env : Env) : Entry :=
  record (mkData (t_batchId t) (t_name t) (t_queue t) (t_data t) completed
                 (Some (t_attempts t)) (t_maxAttempts t) None duration) env.

(** [fail(error, duration)]: [error instanceof Error ? error.message : error]. *)
Definition fail (t : tracker) (error : JsError + string)
    (duration : option Z) (env : Env) : Entry :=
  let msg := match error with inl e => Js.message e | inr s => s end in
  record (mkData (t_batchId t) (t_name t) (t_queue t) (t_data t) failed
                 (Some (t_attempts t)) (t_maxAttempts t) (Some msg) duration)
         env.

End JobWatcher.

(* ===================================================================== *)
(** * Scenarios and invariants used by the statements below *)
(* ===================================================================== *)

Section QueryScenario.
Import QueryWatcher.



End QueryScenario.

Section RequestScenario.
Import RequestWatcher.

Definition sample_request (st : Z) (b : JsValue) : RequestData :=
  mkData "b1" 0 "get" "/users?page=2" "/users" (JObj []) [("Cookie", "k")] b
         None None JUndefined (mkResponse st [] JUndefined) None None.

Definition sample_env : Env := mkEnv "id-1" "batch-1" 1700000000000 12.

End RequestScenario.

Section CircularValues.

(** An object that holds a reference to itself, as the test of the cache
    watcher builds it: [const circular = { a: 1 }; circular.self = circular]. *)
Definition circular : JsValue := JObj [("a", JNum 1); ("self", JCircular)].

Definition circular_cache_data : CacheWatcher.CacheData :=
  CacheWatcher.mkData None "key" circular CacheWatcher.op_set (Some "memory")
                      None None None.

Definition circular_http_data : HttpClientWatcher.HttpClientData :=
  HttpClientWatcher.mkData None "post" "https://api.example.com/data" []
                           circular 200 [] JNull 5.

End CircularValues.

Section ApiScenario.
Import ApiHandler.

(** The pathname of a request target in origin form that has no dot
    segments and no character to escape: the target up to the first [?]
    or [#]. *)
Fixpoint origin_form_pathname (s : string) : string :=
  match s with
  | EmptyString => EmptyString
  | String c s' =>
      if Ascii.eqb c "?" || Ascii.eqb c "#" then EmptyString
      else String c (origin_form_pathname s')
  end.

Definition sample_platform : Platform :=
  mkPlatform (fun u => Ok (origin_form_pathname u)) (fun _ => None)
             1700000000000.

(** A storage adapter that has lost its connection: reads reject. *)
Definition failing_storage : Adapter :=
  mkAdapter (fun _ => Rejected (Error "connection lost"))
            (fun _ => Rejected (Error "connection lost"))
            (fun _ => Rejected (Error "connection lost"))
            (Rejected (Error "connection lost"))
            (Rejected (Error "connection lost"))
            (fun _ => Rejected (Error "connection lost")).

End ApiScenario.

Section PruneScenario.
Import MemoryStorage.

(** The scenario of the retention sweep: entries created two days ago, one
    hour ago and now, pruned with a cutoff of one day ago. *)
Definition day : Z := 86400000.
Definition t_now : Z := 1700000000000.

Definition aged (k : string) (t : Z) : Entry :=
  mkEntry k "batch-1" log (JObj [("level", JStr "info")]) [] t None None.


End PruneScenario.

Section UpsertScenario.

(** Two entries with one id that differ in every other field. *)
Definition e_first : Entry :=
  mkEntry "a" "b1" log (JObj [("message", JStr "one")]) ["t1"] 1000
          (Some 5%Z) None.

Definition e_second : Entry :=
  mkEntry "a" "b2" query (JObj [("message", JStr "two")]) ["t2"] 2000
          (Some 7%Z) (Some 64%Z).

Definition empty_table : gmap string Sql.Row := ∅.

Definition twice (save : Entry → gmap string Sql.Row → result (gmap string Sql.Row))
  : result (gmap string Sql.Row) :=
  bind (save e_first empty_table) (save e_second).

Definition found (k : string) (r : result (gmap string Sql.Row))
  : result (option Entry) :=
  bind r (fun t => Ok (Sql.select_by_id k t)).

End UpsertScenario.

Section BatchIndex.

(** The batch index is exact when it lists, under every batch and once
    each, the keys of the stored entries of that batch. *)
Definition keyed (st : MemoryStorage.state) : Prop :=
  ∀ k e, map_get k (MemoryStorage.entries st) = Some e → id e = k.

Definition batch_index_exact (st : MemoryStorage.state) : Prop :=
  (∀ b ids, map_get b (MemoryStorage.entriesByBatch st) = Some ids →
     NoDup ids
     ∧ ∀ k e, k ∈ ids → map_get k (MemoryStorage.entries st) = Some e →
              batchId e = b)
  ∧ (∀ k e, map_get k (MemoryStorage.entries st) = Some e →
       ∃ ids, map_get (batchId e) (MemoryStorage.entriesByBatch st) = Some ids
              ∧ k ∈ ids).

(** The invariant behind exactness: every key the batch index lists is the
    key of a stored entry of that batch. *)
Definition batch_index_inv (st : MemoryStorage.state) : Prop :=
  NoDup (map_keys (MemoryStorage.entries st))
  ∧ keyed st
  ∧ (∀ b ids, map_get b (MemoryStorage.entriesByBatch st) = Some ids →
       NoDup ids
       ∧ ∀ k, k ∈ ids →
              ∃ e, map_get k (MemoryStorage.entries st) = Some e ∧ batchId e = b)
  ∧ (∀ k e, map_get k (MemoryStorage.entries st) = Some e →
       ∃ ids, map_get (batchId e) (MemoryStorage.entriesByBatch st) = Some ids
              ∧ k ∈ ids).

(** An entry may be saved without harm to the batch index when its id is
    new or is stored under the same batch. *)
Definition same_batch_if_stored (e : Entry) (st : MemoryStorage.state) : Prop :=
  ∀ old, MemoryStorage.find (id e) st = Some old → batchId old = batchId e.

Definition resaved : MemoryStorage.state :=
  MemoryStorage.save e_second
    (MemoryStorage.save e_first (MemoryStorage.new None)).

End BatchIndex.

Section TotalScenario.

(** Two stored entries, one of them tagged [slow]. *)
Definition tagged : Entry :=
  mkEntry "x1" "b1" query (JObj [("sql", JStr "SELECT 1")]) ["slow"] 2000
          (Some 150%Z) None.

Definition untagged : Entry :=
  mkEntry "x2" "b1" query (JObj [("sql", JStr "SELECT 2")]) [] 1000
          (Some 3%Z) None.

Definition two_rows : gmap string Sql.Row :=
  <["x2" := Sql.mkRow "b1" query (content untagged) [] 1000 (Some 3%Z) None]>
    (<["x1" := Sql.mkRow "b1" query (content tagged) ["slow"] 2000
                         (Some 150%Z) None]> ∅).

Definition two_entries : MemoryStorage.state :=
  MemoryStorage.saveBatch [tagged; untagged] (MemoryStorage.new None).

Definition only_slow : ListOptions :=
  mkListOptions None None (Some ["slow"]) None None None None None.

Definition any_text (pattern : string) (c : JsValue) : bool := true.

(** A request for one type within one batch: the in-process backend reads
    the type index and never looks at [batchId]. *)
Definition log_in_b2 : ListOptions :=
  mkListOptions (Some log) (Some "b2") None None None None None None.

Definition two_logs : MemoryStorage.state :=
  MemoryStorage.saveBatch
    [mkEntry "l1" "b1" log (JObj []) [] 1000 None None;
     mkEntry "l2" "b2" log (JObj []) [] 2000 None None]
    (MemoryStorage.new None).

End TotalScenario.

Section EvictionScenario.
Import MemoryStorage.

Definition delete_truthy (m : Datatypes.list (string * Entry)) (k : string)
  : Datatypes.list (string * Entry) :=
  if truthy k then map_delete k m else m.

(** The invariant of the bounded map: distinct keys, none of them empty,
    and no more pairs than [maxEntries]. *)
Definition bounded (st : state) : Prop :=
  NoDup (map_keys (entries st))
  ∧ Forall (fun k => k ≠ "") (map_keys (entries st))
  ∧ (length (entries st) ≤ maxEntries st)%nat.

Definition blank (k : string) : Entry := mkEntry k "b" log (JObj []) [] 0 None None.

(** Ten entries in a store of ten, the oldest under the empty id. *)
Definition full_with_empty_id : state :=
  saveBatch (blank <$> [""; "1"; "2"; "3"; "4"; "5"; "6"; "7"; "8"; "9"])
            (new (Some 10%nat)).

Definition full_store : state :=
  saveBatch (blank <$> ["0"; "1"; "2"; "3"; "4"; "5"; "6"; "7"; "8"; "9"])
            (new (Some 10%nat)).

End EvictionScenario.

Section PageScenario.

(** The request [o] with [limit] and [offset] set. *)
Definition with_page (o : ListOptions) (lim off : nat) : ListOptions :=
  mkListOptions (o_type o) (o_batchId o) (o_tags o) (o_search o) (o_before o)
                (o_after o) (Some lim) (Some off).



(** A request without filters and without page settings. *)
Definition every_entry : ListOptions :=
  mkListOptions None None None None None None None None.

End PageScenario.

Section CallScenario.
Import MemoryStorage.

(** The calls that change an in-process store, and what a call saves. *)
Inductive Call :=
| CallSave (e : Entry)
| CallSaveBatch (es : Datatypes.list Entry)
| CallPrune (beforeDate : Z)
| CallClear.

Definition call (st : state) (c : Call) : state :=
  match c with
  | CallSave e => save e st
  | CallSaveBatch es => saveBatch es st
  | CallPrune beforeDate => (prune beforeDate st).1
  | CallClear => clear st
  end.

Definition saved_by (c : Call) : Datatypes.list Entry :=
  match c with
  | CallSave e => [e]
  | CallSaveBatch es => es
  | CallPrune _ | CallClear => []
  end.

(** A store of five, below the size at which a tenth is a whole entry. *)
Definition store_of_five : state :=
  saveBatch (blank <$> ["0"; "1"; "2"; "3"; "4"]) (new (Some 5%nat)).

End CallScenario.

Section RecordScenario.
Import RealTimeClients.

(** Three clients: one open, one closing, one open whose [send] throws. *)
Definition three_sockets (ws : string) : Socket :=
  if String.eqb ws "closing" then mkSocket 2 None
  else if String.eqb ws "broken" then mkSocket 1 (Some (Error "EPIPE"))
  else mkSocket 1 None.

Definition three_clients : state := mkState ["open"; "closing"; "broken"] [].

Definition ping : list (string * JsValue) :=
  [("type", JStr "ping"); ("timestamp", JNum 1700000000000)].

(** The defaults of [DEFAULT_CONFIG] that [recordEntry] reads. *)
Definition default_config : NodeScope.Config :=
  NodeScope.mkConfig true None None true.

Definition iso_stub (t : Z) : string := "2023-11-14T22:13:20.000Z".

(** A query entry whose bindings hold a BigInt. *)
Definition bigint_entry : Entry :=
  mkEntry "q1" "b1" query
          (JObj [("sql", JStr "SELECT ?"); ("bindings", JArr [JBigInt 1])])
          [] 1700000000000 (Some 2%Z) None.

Definition fresh_instance : NodeScope.state :=
  NodeScope.mkState (Memory (MemoryStorage.new None)) three_clients.

End RecordScenario.

Section TrackerScenario.
Import JobWatcher.

(** The calls on a job tracker, and a run of them that collects the
    entries recorded. *)
Inductive TrackerCall :=
| TStart
| TComplete (duration : option Z)
| TFail (error : JsError + string) (duration : option Z).

Definition tracker_call (env : Env) (acc : tracker * list Entry)
    (c : TrackerCall) : tracker * list Entry :=
  match c with
  | TStart => let r := start acc.1 env in (r.1, acc.2 ++ [r.2])
  | TComplete duration => (acc.1, acc.2 ++ [complete acc.1 duration env])
  | TFail error duration => (acc.1, acc.2 ++ [fail acc.1 error duration env])
  end.

Definition is_start (c : TrackerCall) : bool :=
  match c with TStart => true | _ => false end.

Definition starts (calls : list TrackerCall) : Z :=
  Z.of_nat (length (filter (fun c => is_start c = true) calls)).

End TrackerScenario.

(* ===================================================================== *)
(** * Properties of the watchers *)
(* ===================================================================== *)

Section QueryWatcherFacts.
Import QueryWatcher.



End QueryWatcherFacts.

Section RequestWatcherFacts.
Import RequestWatcher.

Lemma generateTags_error (c : RequestEntryContent) :
  "error" ∈ generateTags c ↔ (400 <= c_status c)%Z.
Proof.
  unfold generateTags.
  destruct (400 <=? c_status c)%Z eqn:H4; destruct (500 <=? c_status c)%Z eqn:H5;
    rewrite ?Z.leb_le, ?Z.leb_gt in *;
    rewrite ?elem_of_app, ?elem_of_cons, ?elem_of_nil; split; intros H;
    try lia; try (by auto 10).
  all: destruct H as [H | [H | H]]; try discriminate H; done.
Qed.

Lemma generateTags_server_error (c : RequestEntryContent) :
  "server-error" ∈ generateTags c ↔ (500 <= c_status c)%Z.
Proof.
  unfold generateTags.
  destruct (400 <=? c_status c)%Z eqn:H4; destruct (500 <=? c_status c)%Z eqn:H5;
    rewrite ?Z.leb_le, ?Z.leb_gt in *;
    rewrite ?elem_of_app, ?elem_of_cons, ?elem_of_nil; split; intros H;
    try lia; try (by auto 10).
  all: repeat (destruct H as [H | H]); try discriminate H; done.
Qed.

Lemma record_Some_tags (w : watcher) (d : RequestData) (env : Env) (e : Entry) :
  record w d env = Ok (Some e) →
  ∃ c, c_status c = status (response d) ∧ tags e = generateTags c.
Proof.
  unfold record. case_match; [discriminate |].
  destruct (if captureBody w then _ else _); [| discriminate].
  destruct (if captureResponse w then _ else _); [| discriminate].
  simpl. intros [= <-]. eexists. split; [| reflexivity]. done.
Qed.

(** C7. The tags of a recorded request include [error] exactly when the
    response status is at least 400 and [server-error] exactly when it is
    at least 500. *)
Theorem request_tags_error_iff_status
    (w : watcher) (d : RequestData) (env : Env) (e : Entry) :
  record w d env = Ok (Some e) →
  ("error" ∈ tags e ↔ (400 <= status (response d))%Z)
  ∧ ("server-error" ∈ tags e ↔ (500 <= status (response d))%Z).
Proof.
  intros (c & Hs & ->)%record_Some_tags. rewrite <- Hs.
  split; [apply generateTags_error | apply generateTags_server_error].
Qed.

Lemma request_tags_error_iff_status_witness :
  (∃ e, record (new default_options) (sample_request 404 JNull) sample_env
        = Ok (Some e)
        ∧ "error" ∈ tags e ∧ "server-error" ∉ tags e)
  ∧ (∃ e, record (new default_options) (sample_request 503 JNull) sample_env
          = Ok (Some e)
          ∧ "error" ∈ tags e ∧ "server-error" ∈ tags e).
Proof.
  split; eexists; (split; [reflexivity |]).
  - pose proof (request_tags_error_iff_status (new default_options)
                  (sample_request 404 JNull) sample_env _ eq_refl) as [H1 H2].
    split; [apply H1; simpl; lia | rewrite H2; simpl; lia].
  - pose proof (request_tags_error_iff_status (new default_options)
                  (sample_request 503 JNull) sample_env _ eq_refl) as [H1 H2].
    split; [apply H1; simpl; lia | apply H2; simpl; lia].
Defined.

End RequestWatcherFacts.

Section SerialisationFailures.

Lemma stringify_circular :
  stringify circular = Throw (TypeError "Converting circular structure to JSON").
Proof. reflexivity. Qed.

(** Outside [undefined] and [null], [RequestWatcher.truncateBody] throws
    whatever [JSON.stringify] throws. *)
Lemma request_truncateBody_throws (w : RequestWatcher.watcher) (b : JsValue)
    (err : JsError) :
  b ≠ JUndefined → b ≠ JNull → stringify b = Throw err →
  RequestWatcher.truncateBody w b = Throw err.
Proof.
  intros Hu Hn Hs. unfold RequestWatcher.truncateBody.
  rewrite Hs. by destruct b.
Qed.

(** A request whose body was captured and does not serialise makes
    [record] throw, on any path that is not ignored. *)
Lemma request_record_throws (w : RequestWatcher.watcher)
    (d : RequestWatcher.RequestData) (env : Env) (err : JsError) :
  RequestWatcher.captureBody w = true →
  existsb (fun p => startsWith (RequestWatcher.path d) p)
          (RequestWatcher.ignorePaths w) = false →
  RequestWatcher.body d ≠ JUndefined → RequestWatcher.body d ≠ JNull →
  stringify (RequestWatcher.body d) = Throw err →
  RequestWatcher.record w d env = Throw err.
Proof.
  intros Hc Hi Hu Hn Hs. unfold RequestWatcher.record.
  rewrite Hi, Hc. by rewrite (request_truncateBody_throws _ _ err).
Qed.

(** C3. [RequestWatcher.record] throws the [TypeError] of [JSON.stringify]
    when the request body is circular, while the cache watcher and the HTTP
    client watcher store the sentinel [[UNSERIALIZABLE]] for the same
    value. *)
Theorem request_record_throws_on_circular_body :
  RequestWatcher.record (RequestWatcher.new RequestWatcher.default_options)
                        (sample_request 200 circular) sample_env
    = Throw (TypeError "Converting circular structure to JSON")
  ∧ get_prop "value" (content (CacheWatcher.record circular_cache_data sample_env))
    = JStr "[UNSERIALIZABLE]"
  ∧ get_prop "body"
      (content (HttpClientWatcher.record (fun _ => None)
                  (HttpClientWatcher.new None None) circular_http_data sample_env))
    = JStr "[UNSERIALIZABLE]".
Proof. repeat split. Qed.

End SerialisationFailures.

(* ===================================================================== *)
(** * Properties of the API layer *)
(* ===================================================================== *)

Section ApiHandlerFacts.
Import ApiHandler.

(** The promise of a route handler is handed over as it settles: nothing
    thrown inside a handler reaches the [catch] of [handle]. *)
Lemma handle_matched (pf : Platform) (storage : Adapter) (req : ApiRequest)
    (path : string) :
  url_pathname pf (url req) = Ok path →
  matched_route req path = true →
  handle pf storage req ∈
    [listEntries pf storage req; getEntry storage (last_segment "" path);
     getBatch storage (last_segment "" path); getStats storage;
     clearEntries storage; pruneEntries pf storage req].
Proof.
  intros Hp Hm. unfold handle, matched_route in *. rewrite Hp. simpl.
  repeat (case_match; simpl; [set_solver |]).
  repeat match goal with H : _ && _ = false |- _ => rewrite H in Hm end.
  destruct (String.eqb (method req) "GET"); simpl in *;
    repeat match goal with H : _ = false |- _ => rewrite H in Hm end; done.
Qed.

(** A request that selects no route is answered 404 [Not found]. *)
Lemma handle_unmatched (pf : Platform) (storage : Adapter) (req : ApiRequest)
    (path : string) :
  url_pathname pf (url req) = Ok path →
  matched_route req path = false →
  handle pf storage req = Fulfilled (mkResponse 404 (BError "Not found")).
Proof.
  intros Hp Hm. unfold handle, matched_route in *. rewrite Hp. simpl.
  destruct (String.eqb (method req) "GET"),
           (String.eqb (method req) "DELETE"),
           (String.eqb (method req) "POST"),
           (String.eqb path "/api/entries"),
           (matches_segment "/api/entries/" path),
           (matches_segment "/api/batch/" path),
           (String.eqb path "/api/stats"),
           (String.eqb path "/api/prune"); simpl in *; done.
Qed.

(** On [GET /api/entries] the promise of [handle] is the promise of
    [listEntries]. *)
Lemma handle_list_route (pf : Platform) (storage : Adapter) (req : ApiRequest) :
  url_pathname pf (url req) = Ok "/api/entries" → method req = "GET" →
  handle pf storage req = listEntries pf storage req.
Proof. intros Hp Hm. unfold handle. rewrite Hp, Hm. done. Qed.

(** A rejection of [storage.list] is the rejection of [listEntries]. *)
Lemma listEntries_rejected (pf : Platform) (storage : Adapter)
    (req : ApiRequest) (err : JsError) :
  (∀ o, list storage o = Rejected err) →
  listEntries pf storage req = Rejected err.
Proof. intros H. unfold listEntries. by rewrite H. Qed.

(** Hence a storage adapter whose [list] rejects makes [handle] reject on
    that route, whatever the query. *)
Lemma handle_list_route_rejected (pf : Platform) (storage : Adapter)
    (req : ApiRequest) (err : JsError) :
  url_pathname pf (url req) = Ok "/api/entries" → method req = "GET" →
  (∀ o, list storage o = Rejected err) →
  handle pf storage req = Rejected err.
Proof.
  intros Hp Hm Hl. rewrite handle_list_route by done.
  by apply listEntries_rejected.
Qed.

(** Every answer of [handle] has status 200 or 404, never 500: the [catch]
    of [handle] is not entered. *)
Lemma handle_status (pf : Platform) (storage : Adapter) (req : ApiRequest)
    (r : ApiResponse) :
  handle pf storage req = Fulfilled r → status r = 200%Z ∨ status r = 404%Z.
Proof.
  destruct (url_pathname pf (url req)) as [path | err] eqn:Hp.
  - destruct (matched_route req path) eqn:Hm.
    + pose proof (handle_matched pf storage req path Hp Hm) as Hin.
      repeat (apply elem_of_cons in Hin as [-> | Hin]).
      * unfold listEntries. destruct (list storage _); simpl; [| done].
        intros [= <-]. by left.
      * unfold getEntry. destruct (find storage _) as [[e |] |]; simpl;
          [| | done]; intros [= <-]; auto.
      * unfold getBatch. destruct (findByBatch storage _); simpl; [| done].
        intros [= <-]. by left.
      * unfold getStats. destruct (stats storage); simpl; [| done].
        intros [= <-]. by left.
      * unfold clearEntries. destruct (clear storage); simpl; [| done].
        intros [= <-]. by left.
      * unfold pruneEntries. destruct (prune storage _); simpl; [| done].
        intros [= <-]. by left.
      * by apply elem_of_nil in Hin.
    + rewrite (handle_unmatched pf storage req path Hp Hm).
      intros [= <-]. by right.
  - unfold handle. rewrite Hp. done.
Qed.

(** C8. With a storage adapter whose calls reject, [handle] on the matched
    route [GET /api/entries] settles to that rejection and not to a
    status-500 response; a request that matches no route is answered 404
    [Not found]. *)
Theorem handle_propagates_storage_rejection :
  handle sample_platform failing_storage
         (mkRequest "GET" "/api/entries?limit=10" [("limit", QString "10")]
                    JUndefined)
    = Rejected (Error "connection lost")
  ∧ handle sample_platform failing_storage
           (mkRequest "GET" "/api/stats" [] JUndefined)
    = Rejected (Error "connection lost")
  ∧ handle sample_platform failing_storage
           (mkRequest "GET" "/api/unknown" [] JUndefined)
    = Fulfilled (mkResponse 404 (BError "Not found")).
Proof. repeat split. Qed.

End ApiHandlerFacts.

(* ===================================================================== *)
(** * Properties of the real-time heartbeat *)
(* ===================================================================== *)

Section HeartbeatFacts.
Import RealTimeServer.

Lemma startHeartbeat_running (s : state) (h : nat) :
  heartbeatInterval s = Some h → startHeartbeat s = s.
Proof. intros H. unfold startHeartbeat. by rewrite H. Qed.

Lemma startHeartbeat_is_running (s : state) :
  is_Some (heartbeatInterval (startHeartbeat s)).
Proof.
  unfold startHeartbeat. destruct (heartbeatInterval s) eqn:H; simpl.
  - rewrite H. eauto.
  - eauto.
Qed.

Lemma clearInterval_gone (h : nat) (tm : Timers) :
  h ∉ (active (clearInterval h tm)).*1.
Proof.
  unfold clearInterval. simpl. intros (t & -> & Ht)%list_elem_of_fmap.
  apply list_elem_of_filter in Ht as [Hne _]. by apply Hne.
Qed.

(** C9. Starting the heartbeat while it runs changes nothing, so starting
    twice is starting once and schedules no second task; stopping leaves no
    handle and no task of the old handle; a start after a stop schedules
    one task again. *)
Theorem heartbeat_start_idempotent_and_stoppable (s : state) :
  startHeartbeat (startHeartbeat s) = startHeartbeat s
  ∧ scheduled (startHeartbeat (startHeartbeat s)) = scheduled (startHeartbeat s)
  ∧ (∀ h, heartbeatInterval s = Some h →
       startHeartbeat s = s
       ∧ heartbeatInterval (stopHeartbeat s) = None
       ∧ h ∉ (active (timers (stopHeartbeat s))).*1)
  ∧ heartbeatInterval (stopHeartbeat s) = None
  ∧ is_Some (heartbeatInterval (startHeartbeat (stopHeartbeat s)))
  ∧ scheduled (startHeartbeat (stopHeartbeat s)) = S (scheduled (stopHeartbeat s)).
Proof.
  assert (startHeartbeat (startHeartbeat s) = startHeartbeat s) as Hidem.
  { destruct (startHeartbeat_is_running s) as [h Hh].
    by apply (startHeartbeat_running _ h). }
  assert (heartbeatInterval (stopHeartbeat s) = None) as Hstop.
  { unfold stopHeartbeat. by destruct (heartbeatInterval s) eqn:H. }
  split; [exact Hidem |]. split; [by rewrite Hidem |].
  split; [| split; [exact Hstop | split]].
  - intros h Hh. split; [by apply (startHeartbeat_running _ h) |].
    split; [exact Hstop |]. unfold stopHeartbeat. rewrite Hh. simpl.
    apply clearInterval_gone.
  - apply startHeartbeat_is_running.
  - unfold startHeartbeat at 1. rewrite Hstop. unfold scheduled. simpl.
    rewrite length_app. simpl. lia.
Qed.

End HeartbeatFacts.

(* ===================================================================== *)
(** * Facts about the containers and the stable sort *)
(* ===================================================================== *)

Section JsMapFacts.
Context {K V : Type} `{EqDecision K}.
Implicit Types (m : list (K * V)) (k : K) (v : V).

Lemma map_get_set_eq m k v : map_get k (map_set k v m) = Some v.
Proof.
  induction m as [| [k' v'] m IH]; simpl.
  - by rewrite decide_True.
  - destruct (decide (k = k')) as [-> | Hne]; simpl.
    + by rewrite decide_True.
    + by rewrite decide_False.
Qed.

Lemma map_get_set_ne m k k' v :
  k ≠ k' → map_get k' (map_set k v m) = map_get k' m.
Proof.
  intros Hne. induction m as [| [k0 v0] m IH]; simpl.
  - by rewrite decide_False.
  - destruct (decide (k = k0)) as [-> | Hk]; simpl.
    + by rewrite !decide_False.
    + destruct (decide (k' = k0)); [done | exact IH].
Qed.

Lemma map_get_None m k : map_get k m = None ↔ k ∉ map_keys m.
Proof.
  unfold map_keys. induction m as [| [k' v'] m IH]; simpl.
  - split; [intros _; apply not_elem_of_nil | done].
  - rewrite not_elem_of_cons. destruct (decide (k = k')) as [-> | Hne].
    + split; [done | by intros [? _]].
    + rewrite IH. tauto.
Qed.

Lemma map_get_Some_elem m k v : map_get k m = Some v → (k, v) ∈ m.
Proof.
  induction m as [| [k' v'] m IH]; simpl; [done |].
  destruct (decide (k = k')) as [-> | Hne].
  - intros [= ->]. by left.
  - intros H. right. by apply IH.
Qed.

Lemma map_get_elem m k v :
  NoDup (map_keys m) → (k, v) ∈ m → map_get k m = Some v.
Proof.
  unfold map_keys. induction m as [| [k' v'] m IH]; simpl.
  - by intros _ ?%elem_of_nil.
  - intros [Hnotin Hnd]%NoDup_cons [[= -> ->] | Hin]%elem_of_cons.
    + by rewrite decide_True.
    + rewrite decide_False; [by apply IH |].
      intros ->. apply Hnotin. apply list_elem_of_fmap.
      by exists (k', v).
Qed.

Lemma map_delete_absent m k : k ∉ map_keys m → map_delete k m = m.
Proof.
  unfold map_keys. induction m as [| [k' v'] m IH]; csimpl; [done |].
  intros [Hne Hnin]%not_elem_of_cons. rewrite decide_False by done.
  by rewrite IH.
Qed.

Lemma map_get_delete_ne m k k' :
  k ≠ k' → map_get k' (map_delete k m) = map_get k' m.
Proof.
  intros Hne. induction m as [| [k0 v0] m IH]; simpl; [done |].
  destruct (decide (k = k0)) as [-> | Hk]; simpl.
  - by rewrite decide_False.
  - by rewrite IH.
Qed.

Lemma map_get_delete_eq m k :
  NoDup (map_keys m) → map_get k (map_delete k m) = None.
Proof.
  unfold map_keys. induction m as [| [k0 v0] m IH]; csimpl; [done |].
  intros [Hnin Hnd]%NoDup_cons. destruct (decide (k = k0)) as [-> | Hk].
  - by apply map_get_None.
  - simpl. rewrite decide_False by done. by apply IH.
Qed.

Lemma map_keys_set m k v :
  map_keys (map_set k v m)
  = if decide (k ∈ map_keys m) then map_keys m else map_keys m ++ [k].
Proof.
  unfold map_keys. induction m as [| [k' v'] m IH]; csimpl.
  - done.
  - destruct (decide (k = k')) as [-> | Hne]; csimpl.
    + rewrite decide_True; [done | by left].
    + rewrite IH. destruct (decide (k ∈ m.*1)) as [Hin | Hnin].
      * rewrite decide_True; [done | by right].
      * rewrite decide_False; [done |]. by intros [? | ?]%elem_of_cons.
Qed.

Lemma map_set_NoDup m k v :
  NoDup (map_keys m) → NoDup (map_keys (map_set k v m)).
Proof.
  intros Hnd. rewrite map_keys_set. case_decide; [done |].
  apply NoDup_app. split; [done |]. split; [| apply NoDup_singleton].
  intros x Hx ->%list_elem_of_singleton. done.
Qed.

Lemma map_set_length m k v :
  length (map_set k v m)
  = if decide (k ∈ map_keys m) then length m else S (length m).
Proof.
  pose proof (map_keys_set m k v) as H. apply (f_equal length) in H.
  unfold map_keys in *. rewrite length_fmap in H. rewrite H.
  case_decide; rewrite ?length_app, length_fmap; simpl; lia.
Qed.

Lemma map_delete_app_fresh pre k v m :
  k ∉ map_keys pre → map_delete k (pre ++ (k, v) :: m) = pre ++ m.
Proof.
  unfold map_keys. induction pre as [| [k' v'] pre IH]; simpl.
  - intros _. by rewrite decide_True.
  - intros [Hne Hnin]%not_elem_of_cons. rewrite decide_False by done.
    by rewrite IH.
Qed.



Lemma filter_keys_NoDup (P : K * V → Prop) `{∀ x, Decision (P x)} m :
  NoDup (map_keys m) → NoDup (map_keys (filter P m)).
Proof.
  unfold map_keys. induction m as [| kv m IH]; [done |].
  intros [Hnotin Hnd]%NoDup_cons. rewrite filter_cons.
  destruct (decide (P kv)); [| by apply IH].
  simpl. apply NoDup_cons. split; [| by apply IH].
  intros (kv' & Heq & [_ Hin]%list_elem_of_filter)%list_elem_of_fmap.
  apply Hnotin. apply list_elem_of_fmap. by exists kv'.
Qed.

End JsMapFacts.

Section JsSetFacts.
Implicit Types (s : list string) (x y : string).

Lemma elem_of_set_add x y s : x ∈ set_add y s ↔ x = y ∨ x ∈ s.
Proof.
  unfold set_add. case_decide as Hin.
  - split; [by right | by intros [-> | ?]].
  - rewrite elem_of_app, list_elem_of_singleton. tauto.
Qed.

Lemma set_add_NoDup y s : NoDup s → NoDup (set_add y s).
Proof.
  intros Hnd. unfold set_add. case_decide as Hin; [done |].
  apply NoDup_app. split; [done |]. split; [| apply NoDup_singleton].
  by intros x Hx ->%list_elem_of_singleton.
Qed.

Lemma elem_of_set_delete x y s : x ∈ set_delete y s ↔ x ∈ s ∧ x ≠ y.
Proof. unfold set_delete. rewrite list_elem_of_filter. tauto. Qed.

Lemma set_delete_NoDup y s : NoDup s → NoDup (set_delete y s).
Proof. apply NoDup_filter. Qed.

End JsSetFacts.

Section SortFacts.
Context {A : Type} (le : A → A → bool).

Lemma insert_by_Permutation (x : A) (l : list A) : insert_by le x l ≡ₚ x :: l.
Proof.
  induction l as [| y l IH]; simpl; [done |].
  destruct (le x y); [done |]. rewrite IH. apply Permutation_swap.
Qed.

Lemma sort_by_Permutation (l : list A) : sort_by le l ≡ₚ l.
Proof.
  induction l as [| x l IH]; simpl; [done |].
  rewrite insert_by_Permutation. by rewrite IH.
Qed.

Lemma sort_by_length (l : list A) : length (sort_by le l) = length l.
Proof. by rewrite sort_by_Permutation. Qed.

Lemma elem_of_sort_by (x : A) (l : list A) : x ∈ sort_by le l ↔ x ∈ l.
Proof. by rewrite sort_by_Permutation. Qed.

Hypothesis le_total : ∀ x y, le x y = true ∨ le y x = true.
Hypothesis le_trans : ∀ x y z, le x y = true → le y z = true → le x z = true.

Lemma insert_by_sorted (x : A) (l : list A) :
  StronglySorted (fun a b => le a b = true) l →
  StronglySorted (fun a b => le a b = true) (insert_by le x l).
Proof.
  induction 1 as [| y l Hl IH Hy]; simpl.
  - by repeat constructor.
  - destruct (le x y) eqn:Hxy.
    + constructor; [by constructor |]. constructor; [done |].
      eapply Forall_impl; [exact Hy |]. intros z Hz. by eapply le_trans.
    + constructor; [exact IH |].
      rewrite insert_by_Permutation. constructor; [| done].
      destruct (le_total x y); congruence.
Qed.

Lemma sort_by_sorted (l : list A) :
  StronglySorted (fun a b => le a b = true) (sort_by le l).
Proof.
  induction l as [| x l IH]; simpl; [constructor |].
  by apply insert_by_sorted.
Qed.

End SortFacts.

Lemma StronglySorted_weaken {A} (R1 R2 : relation A) (l : list A) :
  (∀ x y, R1 x y → R2 x y) → StronglySorted R1 l → StronglySorted R2 l.
Proof.
  intros H. induction 1 as [| x l Hl IH Hx]; constructor; [done |].
  eapply Forall_impl; [exact Hx | auto].
Qed.


Lemma oldest_first_sorted (l : list Entry) :
  StronglySorted (fun a b => (createdAt a <= createdAt b)%Z)
                 (sort_by oldest_first l).
Proof.
  eapply StronglySorted_weaken; [| apply (sort_by_sorted oldest_first)].
  - intros a b H. unfold oldest_first in H. lia.
  - intros x y. unfold oldest_first. lia.
  - intros x y z. unfold oldest_first. lia.
Qed.

(* ===================================================================== *)
(** * Pruning *)
(* ===================================================================== *)

Section PruneFacts.
Import MemoryStorage.

Lemma removeFromIndexes_entries (e : Entry) (st : state) :
  entries (removeFromIndexes e st) = entries st.
Proof. done. Qed.

Lemma prune_fold (c : Z) (l : Datatypes.list (string * Entry)) :
  ∀ pre st n,
    entries st = pre ++ l →
    NoDup (map_keys (pre ++ l)) →
    let r := foldl (prune_step c) (st, n) l in
    entries r.1 = pre ++ filter (fun kv => ¬ (createdAt kv.2 < c)%Z) l
    ∧ r.2 = (n + length (filter (fun kv => (createdAt kv.2 < c)%Z) l))%nat
    ∧ maxEntries r.1 = maxEntries st.
Proof.
  induction l as [| [k e] l IH]; intros pre st n Hst Hnd.
  - simpl. by rewrite Nat.add_0_r.
  - simpl. rewrite !filter_cons. simpl.
    destruct (createdAt e <? c)%Z eqn:Hold.
    + apply Z.ltb_lt in Hold.
      rewrite decide_False by tauto. rewrite decide_True by done.
      assert (k ∉ map_keys pre) as Hfresh.
      { unfold map_keys in *. rewrite fmap_app in Hnd.
        apply NoDup_app in Hnd as (_ & Hdisj & _).
        intros Hin. apply (Hdisj k Hin). by left. }
      destruct (IH pre (delete_entry k (removeFromIndexes e st)) (S n))
        as (H1 & H2 & H3).
      * simpl. rewrite Hst. by apply map_delete_app_fresh.
      * unfold map_keys in *. rewrite fmap_app in *. csimpl in Hnd.
        apply NoDup_app in Hnd as (Hp & Hdisj & [_ Hl]%NoDup_cons).
        apply NoDup_app. split; [done |]. split; [| done].
        intros x Hx Hx'. apply (Hdisj x Hx). by right.
      * split; [exact H1 |]. split; [| exact H3]. rewrite H2. simpl. lia.
    + apply Z.ltb_ge in Hold.
      rewrite decide_True by lia. rewrite decide_False by lia.
      destruct (IH (pre ++ [(k, e)]) st n) as (H1 & H2 & H3).
      * by rewrite <- app_assoc.
      * by rewrite <- app_assoc.
      * split; [by rewrite H1, <- app_assoc |]. done.
Qed.

(** The in-process backend keeps exactly the pairs that are not older than
    the cutoff, in their order, and counts the others. *)
Lemma memory_prune_entries (c : Z) (st : state) :
  NoDup (map_keys (entries st)) →
  entries (prune c st).1
    = filter (fun kv => ¬ (createdAt kv.2 < c)%Z) (entries st)
  ∧ (prune c st).2
    = length (filter (fun kv => (createdAt kv.2 < c)%Z) (entries st))
  ∧ maxEntries (prune c st).1 = maxEntries st.
Proof.
  intros Hnd. unfold prune.
  by destruct (prune_fold c (entries st) [] st 0%nat eq_refl Hnd) as (? & ? & ?).
Qed.






End PruneFacts.

(* ===================================================================== *)
(** * Saving the same id twice *)
(* ===================================================================== *)

Section UpsertFacts.

Lemma memory_addToIndexes_entries (e : Entry) (st : MemoryStorage.state) :
  MemoryStorage.entries (MemoryStorage.addToIndexes e st)
  = MemoryStorage.entries st.
Proof. done. Qed.

(** The in-process backend stores the entry it is given as it is. *)
Lemma memory_save_find (e : Entry) (st : MemoryStorage.state) :
  MemoryStorage.find (id e) (MemoryStorage.save e st) = Some e.
Proof.
  unfold MemoryStorage.find, MemoryStorage.save.
  rewrite memory_addToIndexes_entries. simpl. apply map_get_set_eq.
Qed.

(** [INSERT OR REPLACE] stores every column of the entry it is given. *)
Lemma sqlite_save_find (e : Entry) (t t' : gmap string Sql.Row) :
  SQLiteStorage.save e t = Ok t' →
  ∃ c, Sql.content_param (content e) = Ok c
       ∧ SQLiteStorage.find (id e) t'
         = Some (mkEntry (id e) (batchId e) (type e) c (tags e) (createdAt e)
                         (duration e) (memoryUsage e)).
Proof.
  unfold SQLiteStorage.save, SQLiteStorage.find, Sql.insert_or_replace,
    Sql.row_of, Sql.select_by_id.
  destruct (Sql.content_param (content e)) as [c |]; simpl; [| done].
  intros [= <-]. exists c. split; [done |]. by rewrite lookup_insert_eq.
Qed.

(** The upsert of the two client/server backends overwrites [content],
    [tags], [duration] and [memoryUsage] of a row that exists and keeps
    its [batchId], [type] and [createdAt]. *)
Lemma upsert_keeps_identity (e old : Entry) (t t' : gmap string Sql.Row) :
  Sql.select_by_id (id e) t = Some old →
  Sql.insert_or_update e t = Ok t' →
  ∃ c, Sql.content_param (content e) = Ok c
       ∧ Sql.select_by_id (id e) t'
         = Some (mkEntry (id old) (batchId old) (type old) c (tags e)
                         (createdAt old) (duration e) (memoryUsage e)).
Proof.
  unfold Sql.insert_or_update, Sql.row_of, Sql.select_by_id.
  destruct (t !! id e) as [r |] eqn:Hr; simpl; [| done]. intros [= <-].
  destruct (Sql.content_param (content e)) as [c |]; simpl; [| done].
  intros [= <-]. exists c. split; [done |]. by rewrite lookup_insert_eq.
Qed.

(** C2. After [save(e_first); save(e_second)] with one id, the in-process
    and the embedded-file backend return the second entry as a whole, with
    its [batchId], [type] and [createdAt]; the two client/server backends
    return the second content, tags, duration and memory usage with the
    [batchId], [type] and [createdAt] of the first. *)
Theorem second_save_replaces_identity_fields :
  MemoryStorage.find "a"
    (MemoryStorage.save e_second
       (MemoryStorage.save e_first (MemoryStorage.new None)))
    = Some e_second
  ∧ found "a" (twice SQLiteStorage.save) = Ok (Some e_second)
  ∧ found "a" (twice MySQLStorage.save)
    = Ok (Some (mkEntry "a" "b1" log (content e_second) (tags e_second) 1000
                        (duration e_second) (memoryUsage e_second)))
  ∧ found "a" (twice PostgreSQLStorage.save)
    = Ok (Some (mkEntry "a" "b1" log (content e_second) (tags e_second) 1000
                        (duration e_second) (memoryUsage e_second))).
Proof. repeat split; by vm_compute. Qed.

End UpsertFacts.

(* ===================================================================== *)
(** * Reading a batch, and the order of [list] *)
(* ===================================================================== *)

Section OrderFacts.




Lemma elem_of_rows (e : Entry) (t : gmap string Sql.Row) :
  e ∈ Sql.rows t ↔ Sql.select_by_id (id e) t = Some e.
Proof.
  unfold Sql.rows, Sql.select_by_id. rewrite list_elem_of_fmap. split.
  - intros ([k r] & -> & Hin%elem_of_map_to_list). simpl. by rewrite Hin.
  - destruct (t !! id e) as [r |] eqn:Hr; simpl; [| done].
    intros [= He]. exists (id e, r). split; [done |].
    by apply elem_of_map_to_list.
Qed.

Lemma rows_NoDup (t : gmap string Sql.Row) : NoDup (Sql.rows t).
Proof.
  unfold Sql.rows. apply NoDup_fmap_2_strong; [| apply NoDup_map_to_list].
  intros [k1 r1] [k2 r2] H1 H2 Heq.
  apply elem_of_map_to_list in H1, H2. simpl in Heq.
  assert (k1 = k2) as -> by (by injection Heq).
  rewrite H1 in H2. by injection H2 as ->.
Qed.

(** On the relational backends [findByBatch] returns the stored entries of
    the batch, each once, oldest first. *)
Lemma sql_select_batch_spec (b : string) (t : gmap string Sql.Row) :
  StronglySorted (fun x y => (createdAt x <= createdAt y)%Z)
                 (Sql.select_batch b t)
  ∧ NoDup (Sql.select_batch b t)
  ∧ ∀ e, e ∈ Sql.select_batch b t
         ↔ Sql.select_by_id (id e) t = Some e ∧ batchId e = b.
Proof.
  unfold Sql.select_batch. split; [apply oldest_first_sorted |]. split.
  - rewrite sort_by_Permutation. apply NoDup_filter, rows_NoDup.
  - intros e. rewrite elem_of_sort_by, list_elem_of_filter, elem_of_rows. tauto.
Qed.


Lemma NoDup_omap_inj {A B} (f : A → option B) (l : list A) :
  NoDup l →
  (∀ x y z, x ∈ l → y ∈ l → f x = Some z → f y = Some z → x = y) →
  NoDup (omap f l).
Proof.
  induction 1 as [| x l Hx Hl IH]; intros Hinj; csimpl; [constructor |].
  assert (NoDup (omap f l)) as IH'.
  { apply IH. intros a b z Ha Hb. apply Hinj; by right. }
  destruct (f x) as [z |] eqn:Hfx; [| done].
  constructor; [| done].
  intros (y & Hy & Hfy)%list_elem_of_omap.
  apply Hx. rewrite (Hinj x y z); [done | by left | by right | done | done].
Qed.

Lemma memory_values_NoDup (st : MemoryStorage.state) :
  NoDup (map_keys (MemoryStorage.entries st)) → keyed st →
  NoDup (map_values (MemoryStorage.entries st)).
Proof.
  intros Hnd Hkey. unfold map_values, map_keys in *.
  apply NoDup_fmap_2_strong; [| by eapply NoDup_fmap_1].
  intros [k1 e1] [k2 e2] H1 H2. simpl. intros <-.
  apply map_get_elem in H1, H2; try done.
  apply Hkey in H1, H2. congruence.
Qed.

(** As long as the batch index is exact, the in-process backend returns
    the stored entries of the batch, oldest first. *)
Lemma memory_findByBatch_exact (b : string) (st : MemoryStorage.state) :
  NoDup (map_keys (MemoryStorage.entries st)) → keyed st →
  batch_index_exact st →
  StronglySorted (fun x y => (createdAt x <= createdAt y)%Z)
                 (MemoryStorage.findByBatch b st)
  ∧ MemoryStorage.findByBatch b st
    ≡ₚ filter (fun e => batchId e = b) (map_values (MemoryStorage.entries st)).
Proof.
  intros Hnd Hkey [Hsound Hcomplete]. unfold MemoryStorage.findByBatch.
  destruct (map_get b (MemoryStorage.entriesByBatch st)) as [ids |] eqn:Hb.
  - split; [apply oldest_first_sorted |]. rewrite sort_by_Permutation.
    destruct (Hsound b ids Hb) as [Hids Hbatch].
    apply NoDup_Permutation.
    + unfold MemoryStorage.resolve. apply NoDup_omap_inj; [done |].
      intros k1 k2 e _ _ H1 H2. apply Hkey in H1, H2. congruence.
    + by apply NoDup_filter, memory_values_NoDup.
    + intros e. unfold MemoryStorage.resolve, map_values.
      rewrite list_elem_of_omap, list_elem_of_filter, list_elem_of_fmap. split.
      * intros (k & Hk & Hget). split; [by eapply Hbatch |].
        exists (k, e). split; [done |]. by apply map_get_Some_elem.
      * intros [Hbe ([k e'] & -> & Hin)]. simpl in *.
        apply map_get_elem in Hin; [| done].
        destruct (Hcomplete k e' Hin) as (ids' & Hids' & Hk).
        rewrite Hbe, Hb in Hids'. injection Hids' as <-. eauto.
  - split; [constructor |].
    apply NoDup_Permutation; [constructor | |].
    + by apply NoDup_filter, memory_values_NoDup.
    + intros e. unfold map_values.
      rewrite list_elem_of_filter, list_elem_of_fmap. split.
      * by intros ?%elem_of_nil.
      * intros [Hbe ([k e'] & -> & Hin)]. simpl in *.
        apply map_get_elem in Hin; [| done].
        destruct (Hcomplete k e' Hin) as (ids' & Hids' & Hk). congruence.
Qed.

(** C5. In the in-process backend, after an id was saved under batch [b1]
    and saved again under batch [b2], [findByBatch("b1")] returns the entry
    although its batch is [b2]: the batch index still lists the id under
    the first batch.  The embedded-file backend returns nothing for [b1]
    after the same two saves. *)
Theorem memory_findByBatch_returns_other_batch :
  MemoryStorage.findByBatch "b1" resaved = [e_second]
  ∧ batchId e_second = "b2"
  ∧ MemoryStorage.entriesByBatch resaved = [("b1", ["a"]); ("b2", ["a"])]
  ∧ bind (twice SQLiteStorage.save)
         (fun t => Ok (SQLiteStorage.findByBatch "b1" t)) = Ok [].
Proof. repeat split; by vm_compute. Qed.

End OrderFacts.

(* ===================================================================== *)
(** * The [total] of [list] *)
(* ===================================================================== *)

Section TotalFacts.

Lemma truthy_opt_Some (s : string) : s ≠ "" → truthy_opt (Some s) = Some s.
Proof.
  intros Hs. unfold truthy_opt, truthy.
  destruct (String.eqb_spec s ""); [done | done].
Qed.

(** The PostgreSQL backend counts the rows that satisfy every filter of the
    request, the tag filter included, before the page is cut. *)
Lemma postgresql_list_total (like : string → JsValue → bool)
    (o : ListOptions) (t : gmap string Sql.Row) :
  o_batchId o ≠ Some "" → o_search o ≠ Some "" →
  total (PostgreSQLStorage.list like o t)
  = length (filter (fun e => matches_request like o e) (Sql.rows t)).
Proof.
  intros Hb Hs. unfold PostgreSQLStorage.list, Sql.select_count. simpl.
  f_equal. apply list_filter_iff. intros e.
  unfold matches_request, Sql.where_clause, Sql.tags_given.
  assert (truthy_opt (o_batchId o) = o_batchId o) as ->.
  { destruct (o_batchId o) as [b |]; [| done]. apply truthy_opt_Some. congruence. }
  assert (truthy_opt (o_search o) = o_search o) as ->.
  { destruct (o_search o) as [b |]; [| done]. apply truthy_opt_Some. congruence. }
  destruct (o_type o), (o_batchId o), (o_search o), (o_before o), (o_after o),
    (o_tags o) as [[| tg ts] |]; simpl;
    rewrite ?andb_true_r; split; intros H;
    repeat (apply andb_prop_elim in H as [H ?]);
    repeat (apply andb_prop_intro; split); done.
Qed.

(** C1. With a tags filter that one of two stored entries matches, the
    embedded-file and the MySQL backend return [total = 2], the number of
    rows counted before the tag filter ran, next to the one matching entry;
    the PostgreSQL and the in-process backend return [total = 1]. *)
Theorem sqlite_list_total_ignores_tags :
  length (filter (fun e => matches_request any_text only_slow e)
                 (Sql.rows two_rows)) = 1%nat
  ∧ total (SQLiteStorage.list any_text only_slow two_rows) = 2%nat
  ∧ data (SQLiteStorage.list any_text only_slow two_rows) = [tagged]
  ∧ total (MySQLStorage.list any_text only_slow two_rows) = 2%nat
  ∧ total (PostgreSQLStorage.list any_text only_slow two_rows) = 1%nat
  ∧ total <$> (match MemoryStorage.list only_slow two_entries with
               | Ok r => Some r
               | Throw _ => None
               end) = Some 1%nat.
Proof. repeat split; by vm_compute. Qed.

Lemma memory_list_ignores_batch_when_type_given :
  total <$> (match MemoryStorage.list log_in_b2 two_logs with
             | Ok r => Some r
             | Throw _ => None
             end) = Some 2%nat
  ∧ length (filter (fun e => matches_request any_text log_in_b2 e)
                   (map_values (MemoryStorage.entries two_logs))) = 1%nat.
Proof. split; by vm_compute. Qed.

End TotalFacts.

(* ===================================================================== *)
(** * The bound of the in-process backend *)
(* ===================================================================== *)

Section EvictionFacts.
Import MemoryStorage.

Lemma evict_key_entries (st : state) (k : string) :
  entries (evict_key st k) = delete_truthy (entries st) k
  ∧ maxEntries (evict_key st k) = maxEntries st.
Proof.
  unfold evict_key, delete_truthy. destruct (truthy k); [| done].
  by destruct (map_get k (entries st)).
Qed.

Lemma foldl_evict_entries (ks : Datatypes.list string) :
  ∀ st, entries (foldl evict_key st ks) = foldl delete_truthy (entries st) ks
        ∧ maxEntries (foldl evict_key st ks) = maxEntries st.
Proof.
  induction ks as [| k ks IH]; intros st; simpl; [done |].
  destruct (IH (evict_key st k)) as [-> ->].
  by destruct (evict_key_entries st k) as [-> ->].
Qed.

(** Deleting the first [n] keys, all truthy, leaves the map without its
    first [n] pairs. *)
Lemma foldl_delete_take (m : Datatypes.list (string * Entry)) :
  ∀ n, Forall (fun k => k ≠ "") (take n (map_keys m)) →
       foldl delete_truthy m (take n (map_keys m)) = drop n m.
Proof.
  unfold map_keys. induction m as [| [k v] m IH]; intros n Hk.
  - by destruct n.
  - destruct n as [| n]; [done |]. csimpl in *.
    apply Forall_cons in Hk as [Hk Hks].
    unfold delete_truthy at 2. unfold truthy.
    destruct (String.eqb_spec k ""); [done |]. simpl.
    rewrite decide_True by done. by apply IH.
Qed.

Lemma evict_entries (st : state) :
  Forall (fun k => k ≠ "") (map_keys (entries st)) →
  entries (evict st) = drop (maxEntries st / 10) (entries st)
  ∧ maxEntries (evict st) = maxEntries st.
Proof.
  intros Hk. unfold evict.
  destruct (foldl_evict_entries
              (take (maxEntries st / 10) (map_keys (entries st))) st)
    as [-> ->].
  split; [| done]. apply foldl_delete_take. by apply Forall_take.
Qed.

Lemma map_delete_sublist (k : string) (m : Datatypes.list (string * Entry)) :
  map_delete k m `sublist_of` m.
Proof.
  induction m as [| [k' v] m IH]; simpl; [done |].
  destruct (decide (k = k')); [by apply sublist_cons | by apply sublist_skip].
Qed.

Lemma foldl_delete_sublist (ks : Datatypes.list string) :
  ∀ m, foldl delete_truthy m ks `sublist_of` m.
Proof.
  induction ks as [| k ks IH]; intros m; simpl; [done |].
  etrans; [apply IH |]. unfold delete_truthy.
  destruct (truthy k); [apply map_delete_sublist | done].
Qed.

(** Whatever the ids, [save] keeps the keys of the map distinct. *)
Lemma save_NoDup (e : Entry) (st : state) :
  NoDup (map_keys (entries st)) → NoDup (map_keys (entries (save e st))).
Proof.
  intros Hnd. unfold save. rewrite memory_addToIndexes_entries. simpl.
  apply map_set_NoDup.
  destruct (maxEntries st <=? length (entries st))%nat; [| done].
  unfold evict. destruct (foldl_evict_entries
    (take (maxEntries st / 10) (map_keys (entries st))) st) as [-> _].
  unfold map_keys in *. eapply sublist_NoDup; [exact Hnd |].
  apply fmap_sublist, foldl_delete_sublist.
Qed.

(** What [save] leaves in the primary map. *)
Lemma save_entries (e : Entry) (st : state) :
  Forall (fun k => k ≠ "") (map_keys (entries st)) →
  entries (save e st)
  = map_set (id e) e
      (if (maxEntries st <=? length (entries st))%nat
       then drop (maxEntries st / 10) (entries st) else entries st)
  ∧ maxEntries (save e st) = maxEntries st.
Proof.
  intros Hk. unfold save. rewrite memory_addToIndexes_entries. simpl.
  destruct (maxEntries st <=? length (entries st))%nat; [| done].
  by destruct (evict_entries st Hk) as [-> ->].
Qed.

Lemma bounded_new (n : option nat) : bounded (new n).
Proof.
  unfold bounded, new. simpl. split; [constructor |]. split; [constructor | lia].
Qed.

Lemma bounded_save (e : Entry) (st : state) :
  (10 ≤ maxEntries st)%nat → id e ≠ "" → bounded st → bounded (save e st).
Proof.
  intros Hmax Hid (Hnd & Hk & Hlen).
  destruct (save_entries e st Hk) as [He Hm]. unfold bounded.
  rewrite He, Hm. clear He Hm.
  set (m := if (maxEntries st <=? length (entries st))%nat
            then drop (maxEntries st / 10) (entries st) else entries st).
  assert (NoDup (map_keys m) ∧ Forall (fun k => k ≠ "") (map_keys m)
          ∧ (length m < maxEntries st)%nat) as (Hnd' & Hk' & Hlen').
  { subst m. destruct (maxEntries st <=? length (entries st))%nat eqn:Hfull.
    - apply Nat.leb_le in Hfull. unfold map_keys in *. rewrite fmap_drop.
      split; [| split].
      + eapply sublist_NoDup; [exact Hnd | apply sublist_drop].
      + by apply Forall_drop.
      + rewrite length_drop.
        assert (1 ≤ maxEntries st / 10)%nat.
        { by apply Nat.div_le_lower_bound; lia. }
        lia.
    - apply Nat.leb_gt in Hfull. done. }
  split; [by apply map_set_NoDup |]. split.
  - rewrite map_keys_set. case_decide; [done |].
    apply Forall_app. split; [done |]. by constructor.
  - rewrite map_set_length. case_decide; lia.
Qed.

Lemma saveBatch_maxEntries (es : Datatypes.list Entry) :
  ∀ st, bounded st → Forall (fun e => id e ≠ "") es →
        (10 ≤ maxEntries st)%nat →
        bounded (saveBatch es st) ∧ maxEntries (saveBatch es st) = maxEntries st.
Proof.
  induction es as [| e es IH]; intros st Hb Hes Hmax; [done |].
  apply Forall_cons in Hes as [He Hes]. unfold saveBatch. simpl.
  destruct Hb as (Hnd & Hk & Hlen).
  destruct (save_entries e st Hk) as [_ Hm].
  destruct (IH (save e st)) as [Hb' Hm'].
  - by apply bounded_save.
  - done.
  - by rewrite Hm.
  - split; [exact Hb' |]. unfold saveBatch in Hm'. by rewrite Hm', Hm.
Qed.

Lemma bounded_prune (c : Z) (st : state) : bounded st → bounded (prune c st).1.
Proof.
  intros (Hnd & Hk & Hlen).
  destruct (memory_prune_entries c st Hnd) as (He & _ & Hm).
  unfold bounded. rewrite He, Hm. split; [by apply filter_keys_NoDup |].
  split.
  - unfold map_keys in *. apply Forall_forall.
    intros k (kv & -> & [_ Hin]%list_elem_of_filter)%list_elem_of_fmap.
    rewrite Forall_forall in Hk. apply Hk. apply list_elem_of_fmap. by exists kv.
  - pose proof (length_filter
                  (fun kv : string * Entry => ¬ (createdAt kv.2 < c)%Z)
                  (entries st)). lia.
Qed.

Lemma bounded_clear (st : state) : bounded (clear st).
Proof.
  unfold bounded, clear. simpl. split; [constructor |]. split; [constructor | lia].
Qed.

(** When the map is full, the [maxEntries / 10] oldest keys other than the
    one being saved are no longer found after [save]. *)
Lemma save_evicts_oldest (e : Entry) (st : state) (k : string) :
  bounded st → (maxEntries st ≤ length (entries st))%nat →
  k ∈ take (maxEntries st / 10) (map_keys (entries st)) → k ≠ id e →
  find k (save e st) = None.
Proof.
  intros (Hnd & Hk & Hlen) Hfull Hin Hne. unfold find.
  destruct (save_entries e st Hk) as [-> _].
  apply Nat.leb_le in Hfull. rewrite Hfull.
  rewrite map_get_set_ne by done. apply map_get_None.
  unfold map_keys in *. rewrite fmap_drop.
  rewrite <- (take_drop (maxEntries st / 10) (entries st).*1) in Hnd.
  apply NoDup_app in Hnd as (_ & Hdisj & _). by apply Hdisj.
Qed.

(** C10. A store of [maxEntries = 10] that is full and whose oldest entry
    has the empty string as id evicts nothing on the next [save] and then
    holds eleven entries; with ten entries of non-empty ids the same [save]
    evicts the oldest one and leaves ten. *)
Theorem memory_save_exceeds_maxEntries_on_empty_id :
  totalEntries full_with_empty_id = 10%nat
  ∧ maxEntries (save (blank "10") full_with_empty_id) = 10%nat
  ∧ totalEntries (save (blank "10") full_with_empty_id) = 11%nat
  ∧ find "" (save (blank "10") full_with_empty_id) = Some (blank "")
  ∧ totalEntries (save (blank "10") full_store) = 10%nat
  ∧ find "0" (save (blank "10") full_store) = None.
Proof. repeat split; by vm_compute. Qed.

End EvictionFacts.

(* ===================================================================== *)
(** * The batch index of the in-process backend *)
(* ===================================================================== *)

Section BatchIndexFacts.
Import MemoryStorage.

Lemma batch_index_inv_exact (st : state) :
  batch_index_inv st → batch_index_exact st.
Proof.
  intros (Hnd & Hkey & Hsound & Hcomplete). split; [| done].
  intros b ids Hb. destruct (Hsound b ids Hb) as [Hids Hlive].
  split; [done |]. intros k e Hk Hget.
  destruct (Hlive k Hk) as (e' & He' & Hbe). congruence.
Qed.

Lemma batch_index_inv_new (n : option nat) : batch_index_inv (new n).
Proof. unfold new. repeat split; simpl; try done; constructor. Qed.

Lemma batch_index_inv_clear (st : state) : batch_index_inv (clear st).
Proof. unfold clear. repeat split; simpl; try done; constructor. Qed.

(** Taking a stored entry out of the indexes and of the map, as the
    eviction loop and [prune] do. *)
Lemma remove_entry_inv (st : state) (k : string) (old : Entry) :
  batch_index_inv st → map_get k (entries st) = Some old →
  batch_index_inv (delete_entry k (removeFromIndexes old st)).
Proof.
  intros (Hnd & Hkey & Hsound & Hcomplete) Hold.
  pose proof (Hkey k old Hold) as Hid.
  destruct (Hcomplete k old Hold) as (ids0 & Hids0 & Hk0).
  unfold batch_index_inv, keyed, delete_entry, removeFromIndexes. simpl.
  rewrite Hids0, Hid.
  assert (∀ k' e, map_get k' (map_delete k (entries st)) = Some e →
                  k' ≠ k ∧ map_get k' (entries st) = Some e) as Hdel.
  { intros k' e He. destruct (decide (k' = k)) as [-> | Hne].
    - by rewrite map_get_delete_eq in He.
    - by rewrite map_get_delete_ne in He. }
  split; [| split; [| split]].
  - unfold map_keys in *. eapply sublist_NoDup; [exact Hnd |].
    apply fmap_sublist. clear. induction (entries st) as [| [k' v] m IH]; simpl.
    + done.
    + destruct (decide (k = k')); [by apply sublist_cons | by apply sublist_skip].
  - intros k' e [_ He]%Hdel. by apply Hkey.
  - intros b ids Hb. destruct (decide (batchId old = b)) as [<- | Hne].
    + rewrite map_get_set_eq in Hb. injection Hb as <-.
      destruct (Hsound _ _ Hids0) as [Hnd0 Hlive0].
      split; [by apply set_delete_NoDup |].
      intros k' [Hin Hk']%elem_of_set_delete.
      destruct (Hlive0 k' Hin) as (e & He & Hbe). exists e.
      by rewrite map_get_delete_ne.
    + rewrite map_get_set_ne in Hb by done.
      destruct (Hsound _ _ Hb) as [Hndb Hliveb]. split; [done |].
      intros k' Hin. destruct (Hliveb k' Hin) as (e & He & Hbe). exists e.
      split; [| done]. rewrite map_get_delete_ne; [done |].
      intros <-. congruence.
  - intros k' e [Hk' He]%Hdel.
    destruct (Hcomplete k' e He) as (ids & Hids & Hin).
    destruct (decide (batchId old = batchId e)) as [Heq | Hne].
    + rewrite <- Heq, map_get_set_eq. rewrite <- Heq, Hids0 in Hids.
      injection Hids as <-. eexists. split; [done |].
      by apply elem_of_set_delete.
    + rewrite map_get_set_ne by done. eauto.
Qed.

Lemma evict_key_inv (st : state) (k : string) :
  batch_index_inv st → batch_index_inv (evict_key st k).
Proof.
  intros Hinv. unfold evict_key. destruct (truthy k); [| done].
  destruct (map_get k (entries st)) as [old |] eqn:Hold.
  - by apply remove_entry_inv.
  - unfold delete_entry. rewrite map_delete_absent; [by destruct st |].
    by apply map_get_None.
Qed.

Lemma evict_inv (st : state) : batch_index_inv st → batch_index_inv (evict st).
Proof.
  unfold evict. generalize (take (maxEntries st / 10) (map_keys (entries st))).
  intros ks. revert st. induction ks as [| k ks IH]; intros st Hinv; [done |].
  simpl. by apply IH, evict_key_inv.
Qed.

Lemma evict_find (st : state) (k : string) (e : Entry) :
  NoDup (map_keys (entries st)) →
  find k (evict st) = Some e → find k st = Some e.
Proof.
  intros Hnd. unfold find, evict.
  destruct (foldl_evict_entries
              (take (maxEntries st / 10) (map_keys (entries st))) st) as [-> _].
  intros Hget%map_get_Some_elem.
  apply map_get_elem; [done |].
  eapply elem_of_sublist; [exact Hget |]. apply foldl_delete_sublist.
Qed.

(** Putting an entry into the map and the indexes, the last two statements
    of [save]. *)
Lemma put_entry_inv (e : Entry) (st : state) :
  batch_index_inv st → same_batch_if_stored e st →
  batch_index_inv
    (addToIndexes e
       (mkState (map_set (id e) e (entries st)) (entriesByBatch st)
                (entriesByType st) (maxEntries st))).
Proof.
  intros (Hnd & Hkey & Hsound & Hcomplete) Hsame.
  unfold batch_index_inv, keyed, addToIndexes. simpl.
  assert (∀ k' e', map_get k' (map_set (id e) e (entries st)) = Some e' →
            (k' = id e ∧ e' = e)
            ∨ (k' ≠ id e ∧ map_get k' (entries st) = Some e')) as Hset.
  { intros k' e' He'. destruct (decide (id e = k')) as [<- | Hne].
    - rewrite map_get_set_eq in He'. left. by injection He' as <-.
    - rewrite map_get_set_ne in He' by done. right. by split. }
  set (ids0 := default [] (map_get (batchId e) (entriesByBatch st))).
  assert (NoDup ids0 ∧ ∀ k, k ∈ ids0 →
            ∃ e', map_get k (entries st) = Some e' ∧ batchId e' = batchId e)
    as [Hnd0 Hlive0].
  { subst ids0. destruct (map_get (batchId e) (entriesByBatch st)) eqn:Hb; simpl.
    - by apply Hsound.
    - split; [constructor |]. by intros k ?%elem_of_nil. }
  split; [by apply map_set_NoDup |]. split; [| split].
  - intros k' e' [[-> ->] | [_ He']]%Hset; [done | by apply Hkey].
  - intros b ids Hb. destruct (decide (batchId e = b)) as [<- | Hne].
    + rewrite map_get_set_eq in Hb. injection Hb as <-.
      split; [by apply set_add_NoDup |].
      intros k [-> | Hin]%elem_of_set_add.
      * exists e. by rewrite map_get_set_eq.
      * destruct (Hlive0 k Hin) as (e' & He' & Hbe).
        destruct (decide (id e = k)) as [<- | Hk].
        -- exists e. by rewrite map_get_set_eq.
        -- exists e'. by rewrite map_get_set_ne.
    + rewrite map_get_set_ne in Hb by done.
      destruct (Hsound _ _ Hb) as [Hndb Hliveb]. split; [done |].
      intros k Hin. destruct (Hliveb k Hin) as (e' & He' & Hbe). exists e'.
      split; [| done]. rewrite map_get_set_ne; [done |].
      intros <-. apply Hne. rewrite <- Hbe. symmetry. by apply Hsame.
  - intros k' e' [[-> ->] | [Hk' He']]%Hset.
    + rewrite map_get_set_eq. eexists. split; [done |].
      apply elem_of_set_add. by left.
    + destruct (Hcomplete k' e' He') as (ids & Hids & Hin).
      destruct (decide (batchId e = batchId e')) as [Heq | Hne].
      * rewrite <- Heq, map_get_set_eq. eexists. split; [done |].
        apply elem_of_set_add. right. subst ids0.
        rewrite <- Heq in Hids. by rewrite Hids.
      * rewrite map_get_set_ne by done. eauto.
Qed.

(** [save] keeps the batch index exact as long as an id is not saved again
    under another batch. *)
Lemma save_inv (e : Entry) (st : state) :
  batch_index_inv st → same_batch_if_stored e st →
  batch_index_inv (save e st).
Proof.
  intros Hinv Hsame. unfold save.
  destruct (maxEntries st <=? length (entries st))%nat.
  - pose proof (evict_inv st Hinv) as Hinv'.
    apply (put_entry_inv e (evict st) Hinv').
    intros old Hold. apply Hsame. apply evict_find; [by destruct Hinv | done].
  - apply (put_entry_inv e st Hinv Hsame).
Qed.

Lemma prune_fold_inv (c : Z) (l : Datatypes.list (string * Entry)) :
  ∀ pre st n,
    entries st = pre ++ l → batch_index_inv st →
    batch_index_inv (foldl (prune_step c) (st, n) l).1.
Proof.
  induction l as [| [k e] l IH]; intros pre st n Hst Hinv; [done |].
  simpl. destruct (createdAt e <? c)%Z.
  - assert (map_get k (entries st) = Some e) as Hget.
    { apply map_get_elem; [by destruct Hinv |]. rewrite Hst.
      apply elem_of_app. right. by left. }
    apply (IH pre).
    + simpl. rewrite Hst. apply map_delete_app_fresh.
      destruct Hinv as (Hnd & _). rewrite Hst in Hnd.
      unfold map_keys in *. rewrite fmap_app in Hnd.
      apply NoDup_app in Hnd as (_ & Hdisj & _).
      intros Hin. apply (Hdisj k Hin). by left.
    + by apply remove_entry_inv.
  - apply (IH (pre ++ [(k, e)])); [by rewrite <- app_assoc | done].
Qed.

Lemma prune_inv (c : Z) (st : state) :
  batch_index_inv st → batch_index_inv (prune c st).1.
Proof. intros Hinv. by apply (prune_fold_inv c (entries st) [] st 0%nat). Qed.

(** On every state of the in-process backend whose batch index is exact,
    and so after any run of [save], [prune] and [clear] that never saves
    an id again under another batch, [findByBatch] returns the stored
    entries of the batch, oldest first. *)
Lemma memory_findByBatch_spec (b : string) (st : state) :
  batch_index_inv st →
  StronglySorted (fun x y => (createdAt x <= createdAt y)%Z) (findByBatch b st)
  ∧ findByBatch b st
    ≡ₚ filter (fun e => batchId e = b) (map_values (entries st)).
Proof.
  intros Hinv. pose proof (batch_index_inv_exact st Hinv) as Hexact.
  destruct Hinv as (Hnd & Hkey & _). by apply memory_findByBatch_exact.
Qed.

End BatchIndexFacts.

(* ===================================================================== *)
(** * Well-formed stores are the reachable ones *)
(* ===================================================================== *)

Section WellFormedStores.

Lemma wf_storage_new (n : option nat) : wf_storage (Memory (MemoryStorage.new n)).
Proof. simpl. constructor. Qed.

Lemma wf_storage_save (e : Entry) (s s' : Storage) :
  wf_storage s → StorageAdapter.save e s = Ok s' → wf_storage s'.
Proof.
  destruct s as [st | t | t | t]; simpl.
  - intros Hwf [= <-]. by apply save_NoDup.
  - destruct (SQLiteStorage.save e t); simpl; [| done]. by intros _ [= <-].
  - destruct (MySQLStorage.save e t); simpl; [| done]. by intros _ [= <-].
  - destruct (PostgreSQLStorage.save e t); simpl; [| done]. by intros _ [= <-].
Qed.

Lemma wf_memory_saveBatch (es : list Entry) :
  ∀ st, NoDup (map_keys (MemoryStorage.entries st)) →
        NoDup (map_keys (MemoryStorage.entries (MemoryStorage.saveBatch es st))).
Proof.
  induction es as [| e es IH]; intros st Hwf; [done |].
  unfold MemoryStorage.saveBatch. simpl. apply IH. by apply save_NoDup.
Qed.

End WellFormedStores.

(* ===================================================================== *)
(** * Statistics *)
(* ===================================================================== *)

Section StatisticsFacts.
Import Statistics.

Lemma elem_of_all_types (ty : EntryType) : ty ∈ all_types.
Proof. unfold all_types. destruct ty; set_solver. Qed.

Lemma all_types_NoDup : NoDup all_types.
Proof. apply (bool_decide_unpack _). by vm_compute. Qed.

Lemma defaultEntryCounts_keys : map_keys defaultEntryCounts = all_types.
Proof. done. Qed.

Lemma defaultEntryCounts_get (ty : EntryType) :
  map_get ty defaultEntryCounts = Some 0%nat.
Proof. by destruct ty. Qed.

(** Writing a count under a type that is a key leaves the keys as they
    are. *)
Lemma counts_set_keys (counts : list (EntryType * nat)) (ty : EntryType)
    (n : nat) :
  ty ∈ map_keys counts → map_keys (map_set ty n counts) = map_keys counts.
Proof. intros Hin. rewrite map_keys_set. by rewrite decide_True. Qed.

Lemma foldl_count_entry_keys (l : list Entry) :
  ∀ counts, map_keys counts = all_types →
            map_keys (foldl count_entry counts l) = all_types.
Proof.
  induction l as [| e l IH]; intros counts Hk; [done |].
  simpl. apply IH. unfold count_entry. rewrite counts_set_keys; [done |].
  rewrite Hk. apply elem_of_all_types.
Qed.

Lemma foldl_count_entry_get (ty : EntryType) (l : list Entry) :
  ∀ counts n, map_get ty counts = Some n →
    map_get ty (foldl count_entry counts l)
    = Some (n + length (filter (fun e => type e = ty) l))%nat.
Proof.
  induction l as [| e l IH]; intros counts n Hn; simpl.
  - by rewrite Nat.add_0_r.
  - rewrite filter_cons. destruct (decide (type e = ty)) as [He | He].
    + rewrite (IH _ (S n)); [simpl; f_equal; lia |].
      unfold count_entry. by rewrite He, map_get_set_eq, Hn.
    + rewrite (IH _ n); [done |].
      unfold count_entry. by rewrite map_get_set_ne.
Qed.

Lemma foldl_rows_keys (rows : list (EntryType * nat)) :
  ∀ counts, map_keys counts = all_types →
    map_keys (foldl (fun c row => map_set row.1 row.2 c) counts rows)
    = all_types.
Proof.
  induction rows as [| [ty n] rows IH]; intros counts Hk; [done |].
  simpl. apply IH. rewrite counts_set_keys; [done |].
  rewrite Hk. apply elem_of_all_types.
Qed.

Lemma foldl_rows_get (ty : EntryType) (rows : list (EntryType * nat)) :
  NoDup (map_keys rows) →
  ∀ counts,
    map_get ty (foldl (fun c row => map_set row.1 row.2 c) counts rows)
    = match map_get ty rows with
      | Some n => Some n
      | None => map_get ty counts
      end.
Proof.
  unfold map_keys. induction rows as [| [k n] rows IH]; [done |].
  intros [Hnin Hnd]%NoDup_cons counts. csimpl. rewrite (IH Hnd).
  destruct (decide (ty = k)) as [-> | Hne].
  - assert (map_get k rows = None) as -> by (by apply map_get_None).
    apply map_get_set_eq.
  - destruct (map_get ty rows); [done |]. by rewrite map_get_set_ne.
Qed.

Lemma grouped_get (f : EntryType → nat) (ty : EntryType) (tys : list EntryType) :
  map_get ty (omap (fun ty' => if (0 <? f ty')%nat then Some (ty', f ty')
                               else None) tys)
  = if decide (ty ∈ tys) then
      if (0 <? f ty)%nat then Some (f ty) else None
    else None.
Proof.
  induction tys as [| k tys IH]; [done |]. csimpl.
  destruct (decide (ty = k)) as [-> | Hne].
  - rewrite decide_True by (by left).
    destruct (0 <? f k)%nat eqn:Hf; simpl.
    + by rewrite decide_True.
    + rewrite IH. by case_decide.
  - assert ((if decide (ty ∈ k :: tys)
             then if (0 <? f ty)%nat then Some (f ty) else None else None)
            = (if decide (ty ∈ tys)
               then if (0 <? f ty)%nat then Some (f ty) else None else None))
      as ->.
    { destruct (decide (ty ∈ tys)) as [Hin | Hnin].
      - rewrite decide_True; [done | by right].
      - rewrite decide_False; [done |]. by intros [? | ?]%elem_of_cons. }
    destruct (0 <? f k)%nat; simpl; [rewrite decide_False by done |];
      exact IH.
Qed.

Lemma grouped_keys_NoDup (f : EntryType → nat) (tys : list EntryType) :
  NoDup tys →
  NoDup (map_keys (omap (fun ty' => if (0 <? f ty')%nat then Some (ty', f ty')
                                     else None) tys)).
Proof.
  unfold map_keys. induction 1 as [| k tys Hk Hnd IH]; csimpl; [constructor |].
  destruct (0 <? f k)%nat; [| done]. csimpl. constructor; [| done].
  intros ([k' n] & -> & Hin)%list_elem_of_fmap.
  apply list_elem_of_omap in Hin as (ty' & Hty' & Heq).
  destruct (0 <? f ty')%nat; [| done]. simpl in *. by injection Heq as -> _.
Qed.

(** Every entry has one type, so the counts of the ten types add up to the
    number of entries. *)
Lemma length_by_type (l : list Entry) :
  sum_list ((fun ty => length (filter (fun e => type e = ty) l)) <$> all_types)
  = length l.
Proof.
  induction l as [| e l IH]; [done |].
  unfold all_types in *. csimpl in *. rewrite !filter_cons.
  destruct (type e); simpl; repeat case_decide; try done; simpl; lia.
Qed.

Lemma counts_determined (counts : list (EntryType * nat)) (f : EntryType → nat) :
  map_keys counts = all_types →
  (∀ ty, map_get ty counts = Some (f ty)) →
  counts = (fun ty => (ty, f ty)) <$> all_types.
Proof.
  intros Hk Hget.
  assert (∀ kv, kv ∈ counts → kv.2 = f kv.1) as Hval.
  { intros [k n] Hin. apply map_get_elem in Hin.
    - rewrite Hget in Hin. by injection Hin.
    - rewrite Hk. apply all_types_NoDup. }
  unfold map_keys in Hk. rewrite <- Hk, <- list_fmap_compose.
  clear Hk Hget. induction counts as [| [k n] counts IH]; [done |].
  csimpl. f_equal.
  - f_equal. apply (Hval (k, n)). by left.
  - apply IH. intros kv Hin. apply Hval. by right.
Qed.

(** X1. On each backend [stats] reports as [totalEntries] the number of
    stored entries; [entriesByType] has the ten entry types as its keys,
    each with the number of stored entries of that type, and these counts
    add up to [totalEntries]. *)
Theorem stats_counts_every_type (s : Storage) :
  totalEntries (stats s) = length (StorageAdapter.stored s)
  ∧ map_keys (entriesByType (stats s)) = all_types
  ∧ (∀ ty, map_get ty (entriesByType (stats s))
           = Some (length (filter (fun e => type e = ty)
                                  (StorageAdapter.stored s))))
  ∧ sum_list (map_values (entriesByType (stats s))) = totalEntries (stats s).
Proof.
  assert (map_keys (entriesByType (stats s)) = all_types
          ∧ ∀ ty, map_get ty (entriesByType (stats s))
                  = Some (length (filter (fun e => type e = ty)
                                         (StorageAdapter.stored s))))
    as [Hkeys Hget].
  { destruct s as [st | t | t | t]; simpl.
    - split; [by apply foldl_count_entry_keys |]. intros ty.
      by rewrite (foldl_count_entry_get ty _ _ 0%nat)
        by apply defaultEntryCounts_get.
    - split; [by apply foldl_rows_keys |]. intros ty.
      rewrite foldl_rows_get by apply grouped_keys_NoDup, all_types_NoDup.
      unfold group_by_type.
      rewrite (grouped_get (fun ty' => length (filter (fun e => type e = ty')
                                                      (Sql.rows t)))).
      rewrite decide_True by apply elem_of_all_types.
      rewrite defaultEntryCounts_get.
      destruct (length _) eqn:Hn; [done | done].
    - split; [by apply foldl_rows_keys |]. intros ty.
      rewrite foldl_rows_get by apply grouped_keys_NoDup, all_types_NoDup.
      unfold group_by_type.
      rewrite (grouped_get (fun ty' => length (filter (fun e => type e = ty')
                                                      (Sql.rows t)))).
      rewrite decide_True by apply elem_of_all_types.
      rewrite defaultEntryCounts_get.
      destruct (length _) eqn:Hn; [done | done].
    - split; [by apply foldl_rows_keys |]. intros ty.
      rewrite foldl_rows_get by apply grouped_keys_NoDup, all_types_NoDup.
      unfold group_by_type.
      rewrite (grouped_get (fun ty' => length (filter (fun e => type e = ty')
                                                      (Sql.rows t)))).
      rewrite decide_True by apply elem_of_all_types.
      rewrite defaultEntryCounts_get.
      destruct (length _) eqn:Hn; [done | done]. }
  assert (totalEntries (stats s) = length (StorageAdapter.stored s)) as Htotal.
  { destruct s as [st | t | t | t]; simpl; try done.
    unfold map_values. by rewrite length_fmap. }
  split; [exact Htotal |]. split; [exact Hkeys |]. split; [exact Hget |].
  rewrite Htotal, <- length_by_type.
  rewrite (counts_determined _ _ Hkeys Hget). unfold map_values.
  by rewrite <- list_fmap_compose.
Qed.

End StatisticsFacts.

Section StatisticsRange.
Import Statistics.





End StatisticsRange.

(* ===================================================================== *)
(** * Pages of [list] *)
(* ===================================================================== *)

Section PageFacts.






(** X4. On each backend [total] does not depend on [limit] and [offset]:
    a [list] call with any page settings returns the [total] of the call
    without them, and throws when that call throws. *)
Theorem list_total_ignores_page (like : string → JsValue → bool)
    (o : ListOptions) (lim off : nat) (s : Storage) :
  match StorageAdapter.list like (with_page o lim off) s,
        StorageAdapter.list like o s with
  | Ok r1, Ok r2 => total r1 = total r2
  | Throw e1, Throw e2 => e1 = e2
  | _, _ => False
  end.
Proof.
  destruct s as [st | t | t | t]; simpl; try done.
  unfold MemoryStorage.list.
  change (MemoryStorage.candidates (with_page o lim off) st)
    with (MemoryStorage.candidates o st).
  change (MemoryStorage.apply_filters (with_page o lim off))
    with (MemoryStorage.apply_filters o).
  by destruct (MemoryStorage.apply_filters o _).
Qed.


End PageFacts.

Section FilterFacts.











End FilterFacts.

(* ===================================================================== *)
(** * Round trips and composition of the storage operations *)
(* ===================================================================== *)

Section RoundTripFacts.







Lemma sql_insert_other (ins : Entry → gmap string Sql.Row → result (gmap string Sql.Row))
    (e : Entry) (t t' : gmap string Sql.Row) (k : string) :
  (ins = Sql.insert_or_replace ∨ ins = Sql.insert_or_update) →
  k ≠ id e → ins e t = Ok t' →
  Sql.select_by_id k t' = Sql.select_by_id k t.
Proof.
  intros [-> | ->] Hne; unfold Sql.insert_or_replace, Sql.insert_or_update,
    Sql.select_by_id; destruct (Sql.row_of e) as [r |]; simpl; try done.
  - intros [= <-]. by rewrite lookup_insert_ne.
  - destruct (t !! id e); intros [= <-]; by rewrite lookup_insert_ne.
Qed.

(** X9. [save] changes what [find] returns for the saved id only: on the
    relational backends always, on the in-process backend as long as the
    store is not full. *)
Theorem save_keeps_other_entries (e : Entry) (s s' : Storage) (k : string) :
  k ≠ id e →
  match s with
  | Memory st =>
      (length (MemoryStorage.entries st) < MemoryStorage.maxEntries st)%nat
  | _ => True
  end →
  StorageAdapter.save e s = Ok s' →
  StorageAdapter.find k s' = StorageAdapter.find k s.
Proof.
  intros Hne Hroom. destruct s as [st | t | t | t]; simpl in *.
  - intros [= <-]. cbn [StorageAdapter.find].
    unfold MemoryStorage.find, MemoryStorage.save.
    apply Nat.leb_gt in Hroom. rewrite Hroom.
    rewrite memory_addToIndexes_entries. simpl.
    by rewrite map_get_set_ne.
  - destruct (SQLiteStorage.save e t) as [t' |] eqn:Hs; simpl; [| done].
    intros [= <-]. simpl.
    eapply (sql_insert_other Sql.insert_or_replace); eauto.
  - destruct (MySQLStorage.save e t) as [t' |] eqn:Hs; simpl; [| done].
    intros [= <-]. simpl.
    eapply (sql_insert_other Sql.insert_or_update); eauto.
  - destruct (PostgreSQLStorage.save e t) as [t' |] eqn:Hs; simpl; [| done].
    intros [= <-]. simpl.
    eapply (sql_insert_other Sql.insert_or_update); eauto.
Qed.

Lemma save_keeps_other_entries_witness :
  ∃ s', StorageAdapter.save untagged (Memory two_entries) = Ok s'
        ∧ StorageAdapter.find "x1" s' = Some tagged.
Proof.
  eexists. split; [reflexivity |].
  rewrite (save_keeps_other_entries untagged (Memory two_entries) _ "x1");
    [by vm_compute | done | simpl; by vm_compute; lia | reflexivity].
Defined.

End RoundTripFacts.

Section PruneAndClearFacts.








Lemma slice_nil {A} (off lim : nat) : slice off lim (@nil A) = [].
Proof. unfold slice. by rewrite drop_nil, take_nil. Qed.

Lemma sort_by_nil {A} (f : A → A → bool) : sort_by f [] = [].
Proof. done. Qed.

(** X11. After [clear] a backend holds nothing: no id is found, every
    batch is empty, every [list] request returns no data with total 0 and
    no further page, and [stats] reports 0 entries, count 0 for every type
    and no oldest or newest instant. *)
Theorem clear_empties_every_view (like : string → JsValue → bool)
    (o : ListOptions) (s : Storage) :
  let s' := Statistics.clear s in
  (∀ k, StorageAdapter.find k s' = None)
  ∧ (∀ b, StorageAdapter.findByBatch b s' = [])
  ∧ (∃ r, StorageAdapter.list like o s' = Ok r
          ∧ data r = [] ∧ total r = 0%nat ∧ hasMore r = false)
  ∧ Statistics.stats s'
    = mkStats 0 Statistics.defaultEntryCounts None None.
Proof.
  destruct s as [st | t | t | t]; simpl.
  - split; [done |]. split; [done |]. split; [| done].
    unfold MemoryStorage.list.
    assert (MemoryStorage.candidates o (MemoryStorage.clear st) = []) as ->.
    { unfold MemoryStorage.candidates. simpl.
      destruct (o_type o); [done |].
      by destruct (truthy_opt (o_batchId o)). }
    assert (MemoryStorage.apply_filters o [] = Ok []) as ->.
    { unfold MemoryStorage.apply_filters.
      destruct (o_tags o) as [ts |]; [destruct (0 <? length ts)%nat |];
        destruct (truthy_opt (o_search o)); simpl;
        destruct (o_before o); by destruct (o_after o). }
    simpl. eexists. split; [done |]. simpl.
    rewrite slice_nil. repeat split; apply Nat.ltb_ge; lia.
  - split; [intros k; unfold SQLiteStorage.find, SQLiteStorage.clear, Sql.select_by_id;
            by rewrite lookup_empty |].
    split; [done |]. split; [| done].
    unfold SQLiteStorage.list, Sql.select_count, Sql.select_page,
      SQLiteStorage.clear, Sql.rows. rewrite map_to_list_empty. simpl.
    eexists. split; [done |]. simpl. rewrite drop_nil, take_nil.
    by destruct (Sql.tags_given o).
  - split; [intros k; unfold MySQLStorage.find, MySQLStorage.clear, Sql.select_by_id;
            by rewrite lookup_empty |].
    split; [done |]. split; [| done].
    unfold MySQLStorage.list, Sql.select_count, Sql.select_page,
      MySQLStorage.clear, Sql.rows. rewrite map_to_list_empty. simpl.
    eexists. split; [done |]. simpl. rewrite drop_nil, take_nil.
    by destruct (Sql.tags_given o).
  - split; [intros k; unfold PostgreSQLStorage.find, PostgreSQLStorage.clear, Sql.select_by_id;
            by rewrite lookup_empty |].
    split; [done |]. split; [| done].
    unfold PostgreSQLStorage.list, Sql.select_count, Sql.select_page,
      PostgreSQLStorage.clear, Sql.rows. rewrite map_to_list_empty. simpl.
    eexists. split; [done |]. simpl. rewrite drop_nil, take_nil.
    by destruct (Sql.tags_given o).
Qed.

End PruneAndClearFacts.

(* ===================================================================== *)
(** * The in-process store under any run of calls *)
(* ===================================================================== *)

Section MemoryRuns.
Import MemoryStorage.

Lemma save_maxEntries (e : Entry) (st : state) :
  maxEntries (save e st) = maxEntries st.
Proof.
  unfold save, addToIndexes. simpl.
  destruct (maxEntries st <=? length (entries st))%nat; [| done].
  unfold evict. by destruct (foldl_evict_entries
    (take (maxEntries st / 10) (map_keys (entries st))) st) as [_ ->].
Qed.

Lemma call_bounded (n : nat) (c : Call) (st : state) :
  (10 ≤ n)%nat → Forall (fun e => id e ≠ "") (saved_by c) →
  bounded st ∧ maxEntries st = n →
  bounded (call st c) ∧ maxEntries (call st c) = n.
Proof.
  intros Hn Hids [Hb Hmax].
  destruct c as [e | es | c |]; cbn [call saved_by] in *.
  - rewrite Forall_singleton in Hids. split.
    + apply bounded_save; [lia | done | done].
    + by rewrite save_maxEntries.
  - destruct (saveBatch_maxEntries es st Hb Hids) as [? ->]; [lia | done].
  - split; [by apply bounded_prune |].
    destruct Hb as (Hnd & _ & _).
    by destruct (memory_prune_entries c st Hnd) as (_ & _ & ->).
  - split; [apply bounded_clear | done].
Qed.

(** X12. A store created with [maxEntries] at least 10 never holds more
    than [maxEntries] entries, whatever run of [save], [saveBatch], [prune]
    and [clear] calls it receives, as long as no saved entry has the empty
    id. *)
Theorem memory_size_bounded_after_any_calls (n : nat)
    (calls : Datatypes.list Call) :
  (10 ≤ n)%nat →
  Forall (fun c => Forall (fun e => id e ≠ "") (saved_by c)) calls →
  (length (entries (foldl call (new (Some n)) calls)) ≤ n)%nat.
Proof.
  intros Hn Hids.
  enough (∀ st, bounded st ∧ maxEntries st = n →
                bounded (foldl call st calls)
                ∧ maxEntries (foldl call st calls) = n) as Hrun.
  { destruct (Hrun (new (Some n))) as [(_ & _ & Hlen) Hmax].
    - split; [apply bounded_new | done].
    - by rewrite Hmax in Hlen. }
  induction Hids as [| c calls Hc _ IH]; intros st Hst; [done |].
  simpl. apply IH. by apply call_bounded.
Qed.

Lemma memory_size_bounded_after_any_calls_witness :
  (length (entries (foldl call (new (Some 10%nat))
     [CallSaveBatch (blank <$> ["0"; "1"; "2"; "3"; "4"; "5"; "6"; "7"; "8"; "9"]);
      CallSave (blank "10"); CallPrune 1; CallSave (blank "11"); CallClear;
      CallSave (blank "12")])) ≤ 10)%nat.
Proof.
  apply memory_size_bounded_after_any_calls; [lia |].
  repeat (apply List.Forall_cons || apply List.Forall_nil); simpl;
    repeat (apply List.Forall_cons || apply List.Forall_nil); done.
Defined.

(** X13. With [maxEntries] below 10 the tenth to evict rounds down to no
    entry: [save] of a new id on such a store adds one entry and evicts
    none, also when the store is full. *)
Theorem memory_small_store_never_evicts (e : Entry) (st : state) :
  (maxEntries st < 10)%nat → id e ∉ map_keys (entries st) →
  length (entries (save e st)) = S (length (entries st))
  ∧ ∀ k, k ≠ id e → find k (save e st) = find k st.
Proof.
  intros Hsmall Hnew.
  assert (entries (save e st) = map_set (id e) e (entries st)) as Hent.
  { unfold save. rewrite memory_addToIndexes_entries. simpl.
    destruct (maxEntries st <=? length (entries st))%nat; [| done].
    unfold evict. by rewrite Nat.div_small by done. }
  split.
  - rewrite Hent, map_set_length. by rewrite decide_False.
  - intros k Hk. unfold find. rewrite Hent. by apply map_get_set_ne.
Qed.

Lemma memory_small_store_never_evicts_witness :
  length (entries (save (blank "5") store_of_five)) = 6%nat
  ∧ maxEntries (save (blank "5") store_of_five) = 5%nat.
Proof.
  split; [| reflexivity].
  refine (proj1 (memory_small_store_never_evicts (blank "5") store_of_five
                   _ _)).
  - vm_compute. lia.
  - apply (bool_decide_unpack _). by vm_compute.
Defined.

Lemma map_get_drop {V} (m : Datatypes.list (string * V)) (k : string) :
  ∀ n, NoDup (map_keys m) →
       map_get k (drop n m)
       = if decide (k ∈ take n (map_keys m)) then None else map_get k m.
Proof.
  unfold map_keys. induction m as [| [k0 v0] m IH]; intros n Hnd.
  - rewrite drop_nil. simpl. by rewrite take_nil.
  - destruct n as [| n]; [done |]. csimpl.
    apply NoDup_cons in Hnd as [Hnin Hnd]. rewrite (IH n Hnd).
    destruct (decide (k = k0)) as [-> | Hne].
    + rewrite (decide_True (P := k0 ∈ k0 :: _)) by by left.
      case_decide; [done |]. by apply map_get_None.
    + destruct (decide (k ∈ take n m.*1)) as [Hin | Hout].
      * rewrite decide_True; [done | by right].
      * rewrite decide_False; [done |]. by intros [? | ?]%elem_of_cons.
Qed.

(** X14. [save] on a full store with [maxEntries] entries evicts the
    [floor(maxEntries / 10)] keys inserted first and no other: every other
    id than the saved one is found as before exactly when it is not among
    them. *)
Theorem memory_save_evicts_exactly_oldest (e : Entry) (st : state)
    (k : string) :
  bounded st → (maxEntries st ≤ length (entries st))%nat → k ≠ id e →
  find k (save e st)
  = if decide (k ∈ take (maxEntries st / 10) (map_keys (entries st)))
    then None else find k st.
Proof.
  intros (Hnd & Hne & _) Hfull Hk.
  destruct (save_entries e st Hne) as [Hent _].
  unfold find. rewrite Hent, map_get_set_ne by done.
  rewrite (proj2 (Nat.leb_le _ _)) by done.
  by apply map_get_drop.
Qed.

Lemma memory_save_evicts_exactly_oldest_witness :
  find "0" (save (blank "10") full_store) = None
  ∧ find "1" (save (blank "10") full_store) = Some (blank "1").
Proof.
  assert (bounded full_store) as Hb.
  { split; [| split].
    - apply (bool_decide_unpack _). by vm_compute.
    - apply (bool_decide_unpack _). by vm_compute.
    - vm_compute. lia. }
  rewrite !(memory_save_evicts_exactly_oldest (blank "10") full_store)
    by (done || (vm_compute; lia)).
  by vm_compute.
Defined.

End MemoryRuns.

Section BatchFacts.
Import MemoryStorage.



Lemma save_keys (e : Entry) (st : state) (k : string) :
  k ∈ map_keys (entries (save e st)) → k = id e ∨ k ∈ map_keys (entries st).
Proof.
  unfold save. rewrite memory_addToIndexes_entries. simpl.
  rewrite map_keys_set.
  assert (∀ k', k' ∈ map_keys (entries
            (if (maxEntries st <=? length (entries st))%nat
             then evict st else st)) → k' ∈ map_keys (entries st)) as Hsub.
  { destruct (maxEntries st <=? length (entries st))%nat; [| done].
    intros k'. unfold evict.
    destruct (foldl_evict_entries
                (take (maxEntries st / 10) (map_keys (entries st))) st)
      as [-> _].
    unfold map_keys. intros Hk'. eapply elem_of_sublist; [exact Hk' |].
    apply fmap_sublist, foldl_delete_sublist. }
  case_decide.
  - intros Hk. right. by apply Hsub.
  - intros [Hk | ->%list_elem_of_singleton]%elem_of_app; [| by left].
    right. by apply Hsub.
Qed.

Lemma saveBatch_distinct_inv (es : Datatypes.list Entry) :
  ∀ st, batch_index_inv st → NoDup (id <$> es) →
        (∀ e, e ∈ es → id e ∉ map_keys (entries st)) →
        batch_index_inv (saveBatch es st).
Proof.
  induction es as [| e es IH]; intros st Hinv Hnd Hfresh; [done |].
  simpl. csimpl in Hnd. apply NoDup_cons in Hnd as [Hnin Hnd].
  apply IH; [| done |].
  - apply save_inv; [done |]. intros old Hold.
    unfold find in Hold.
    assert (map_get (id e) (entries st) = None) as Hnone.
    { apply map_get_None, Hfresh. by left. }
    congruence.
  - intros e' He' [Hk | Hk]%save_keys.
    + apply Hnin. apply list_elem_of_fmap. by exists e'.
    + apply (Hfresh e'); [by right | done].
Qed.

(** X16. After [saveBatch] of entries with distinct ids into a new
    in-process store, [findByBatch] returns the stored entries of the
    batch, oldest first. *)
Theorem findByBatch_exact_after_distinct_saves (n : option nat)
    (es : Datatypes.list Entry) (b : string) :
  NoDup (id <$> es) →
  let st := saveBatch es (new n) in
  StronglySorted (fun x y => (createdAt x <= createdAt y)%Z)
                 (findByBatch b st)
  ∧ findByBatch b st
    ≡ₚ filter (fun e => batchId e = b) (map_values (entries st)).
Proof.
  intros Hnd st. apply memory_findByBatch_spec.
  apply saveBatch_distinct_inv; [apply batch_index_inv_new | done |].
  intros e _. apply not_elem_of_nil.
Qed.

Lemma findByBatch_exact_after_distinct_saves_witness :
  findByBatch "batch-1"
    (saveBatch [aged "old" (t_now - 2 * day); aged "recent" (t_now - 3600000);
                aged "now" t_now] (new None))
  ≡ₚ [aged "old" (t_now - 2 * day); aged "recent" (t_now - 3600000);
      aged "now" t_now].
Proof.
  refine (proj2 (findByBatch_exact_after_distinct_saves None
    [aged "old" (t_now - 2 * day); aged "recent" (t_now - 3600000);
     aged "now" t_now] "batch-1" _)).
  apply (bool_decide_unpack _). by vm_compute.
Defined.

End BatchFacts.

(* ===================================================================== *)
(** * Watcher entries and the serialisation of their content *)
(* ===================================================================== *)

Section SerialisationFacts.

Local Ltac case_scrutinee :=
  match goal with
  | |- match ?a with _ => _ end → _ => destruct a
  end.

(** [JSON.stringify] and the round trip through [JSON.parse] succeed,
    give [undefined] and throw on the same values. *)
Lemma stringify_roundtrip (v : JsValue) :
  match stringify v, Sql.json_roundtrip v with
  | Ok (Some _), Ok (Some _) => True
  | Ok None, Ok None => True
  | Throw e, Throw e' => e = e'
  | _, _ => False
  end.
Proof.
  induction v as [| | b | n | s | n | | xs IH | ps IH]
    using JsValue_nested_ind; simpl; try done.
  - by destruct b.
  - enough (match
        (fix elems (xs0 : list JsValue) : result (list string) :=
           match xs0 with
           | [] => Ok []
           | x :: xs' =>
               bind (stringify x) (fun o =>
               bind (elems xs') (fun rest => Ok (default "null" o :: rest)))
           end) xs,
        (fix elems (xs0 : list JsValue) : result (list JsValue) :=
           match xs0 with
           | [] => Ok []
           | x :: xs' =>
               bind (Sql.json_roundtrip x) (fun o =>
               bind (elems xs') (fun rest => Ok (default JNull o :: rest)))
           end) xs
      with
      | Ok _, Ok _ => True
      | Throw e, Throw e' => e = e'
      | _, _ => False
      end) as H.
    { revert H.
      generalize ((fix elems (xs0 : list JsValue) : result (list string) :=
           match xs0 with
           | [] => Ok []
           | x :: xs' =>
               bind (stringify x) (fun o =>
               bind (elems xs') (fun rest => Ok (default "null" o :: rest)))
           end) xs).
      generalize ((fix elems (xs0 : list JsValue) : result (list JsValue) :=
           match xs0 with
           | [] => Ok []
           | x :: xs' =>
               bind (Sql.json_roundtrip x) (fun o =>
               bind (elems xs') (fun rest => Ok (default JNull o :: rest)))
           end) xs).
      by intros [] []. }
    induction IH as [| x xs Hx _ IHxs]; [done |].
    revert Hx. destruct (stringify x) as [[s |] | e],
      (Sql.json_roundtrip x) as [[y |] | e']; simpl; try done;
      revert IHxs; case_scrutinee; case_scrutinee; simpl; done.
  - enough (match
        (fix members (ps0 : list (string * JsValue)) : result (list string) :=
           match ps0 with
           | [] => Ok []
           | (k, x) :: ps' =>
               bind (stringify x) (fun o =>
               bind (members ps') (fun rest =>
               Ok match o with
                  | Some s => (quote k +:+ ":" +:+ s) :: rest
                  | None => rest
                  end))
           end) ps,
        (fix members (ps0 : list (string * JsValue))
           : result (list (string * JsValue)) :=
           match ps0 with
           | [] => Ok []
           | (k, x) :: ps' =>
               bind (Sql.json_roundtrip x) (fun o =>
               bind (members ps') (fun rest =>
               Ok match o with
                  | Some y => (k, y) :: rest
                  | None => rest
                  end))
           end) ps
      with
      | Ok _, Ok _ => True
      | Throw e, Throw e' => e = e'
      | _, _ => False
      end) as H.
    { revert H. case_scrutinee; case_scrutinee; done. }
    induction IH as [| [k x] ps Hx _ IHps]; [done |].
    simpl in Hx. revert Hx. destruct (stringify x) as [[s |] | e],
      (Sql.json_roundtrip x) as [[y |] | e']; simpl; try done;
      revert IHps; case_scrutinee; case_scrutinee; simpl; done.
Qed.

End SerialisationFacts.

Section WatcherContentFacts.












End WatcherContentFacts.

Section RequestWatcherFacts.
Import RequestWatcher.

Lemma stringify_None (v : JsValue) : stringify v = Ok None → v = JUndefined.
Proof.
  destruct v as [| | [] | n | s | n | | xs | ps]; simpl; try done.
  - match goal with |- bind ?a _ = _ → _ => by destruct a end.
  - match goal with |- bind ?a _ = _ → _ => by destruct a end.
Qed.

Lemma request_truncateBody_Ok (w : watcher) (b : JsValue) (o : option string) :
  stringify b = Ok o → ∃ r, truncateBody w b = Ok r.
Proof.
  intros Hs.
  assert (∃ r, bind (stringify b) (fun serialized =>
               bind (byteLength serialized) (fun bytes =>
               if (sizeLimit w * 1024 <? bytes)%Z then
                 Ok (JStr ("[TRUNCATED - " +:+ num_to_string (round_kb bytes)
                           +:+ "KB exceeds " +:+ num_to_string (sizeLimit w)
                           +:+ "KB limit]"))
               else Ok b)) = Ok r ∨ b = JUndefined) as [r Hgen].
  { rewrite Hs. destruct o as [s |]; simpl.
    - destruct (_ <? _)%Z; eexists; by left.
    - exists JUndefined. right. by apply stringify_None. }
  destruct Hgen as [Hgen | ->]; [| by eexists].
  destruct b; try (by exists r); by eexists.
Qed.

(** X19. [record] of the request watcher returns (an entry, or [null] for
    an ignored path, and exactly then) whenever each body it is set to
    capture serialises. *)
Theorem request_record_returns_when_bodies_serialise (w : watcher)
    (d : RequestData) (env : Env) :
  (captureBody w = true → ∃ o, stringify (body d) = Ok o) →
  (captureResponse w = true →
   ∃ o, stringify (r_body (response d)) = Ok o) →
  ∃ r, record w d env = Ok r
       ∧ (r = None
          ↔ existsb (fun p => startsWith (path d) p) (ignorePaths w) = true).
Proof.
  intros Hb Hr. unfold record.
  destruct (existsb _ (ignorePaths w)); [by exists None |].
  assert (∃ b', (if captureBody w then truncateBody w (body d)
                 else Ok JUndefined) = Ok b') as [b' ->].
  { destruct (captureBody w); [| by eexists].
    destruct (Hb eq_refl) as [o Ho]. by eapply request_truncateBody_Ok. }
  assert (∃ r', (if captureResponse w
                 then truncateBody w (r_body (response d))
                 else Ok JUndefined) = Ok r') as [r' ->].
  { destruct (captureResponse w); [| by eexists].
    destruct (Hr eq_refl) as [o Ho]. by eapply request_truncateBody_Ok. }
  simpl. eexists. split; [done |]. split; intros; done.
Qed.

Lemma request_record_returns_when_bodies_serialise_witness :
  ∃ r, record (new default_options)
         (sample_request 200 (JObj [("name", JStr "Ada")])) sample_env
       = Ok r ∧ r ≠ None.
Proof.
  destruct (request_record_returns_when_bodies_serialise
              (new default_options)
              (sample_request 200 (JObj [("name", JStr "Ada")])) sample_env)
    as (r & Hrec & Hnone).
  - intros _. by eexists.
  - intros _. by eexists.
  - exists r. split; [exact Hrec |]. intros Hr. by apply Hnone in Hr.
Defined.








End RequestWatcherFacts.

(* ===================================================================== *)
(** * Broadcasting and recording an entry *)
(* ===================================================================== *)

Section BroadcastFacts.
Import RealTimeClients.

Lemma filter_all {A} (P : A → Prop) `{!∀ x, Decision (P x)} (l : list A) :
  (∀ x, x ∈ l → P x) → filter P l = l.
Proof.
  induction l as [| x l IH]; [done |]. intros Hall.
  rewrite filter_cons, decide_True by (apply Hall; left).
  f_equal. apply IH. intros y Hy. apply Hall. by right.
Qed.

Lemma filter_ext_in {A} (P Q : A → Prop) `{!∀ x, Decision (P x)}
    `{!∀ x, Decision (Q x)} (l : list A) :
  (∀ x, x ∈ l → P x ↔ Q x) → filter P l = filter Q l.
Proof.
  induction l as [| x l IH]; [done |]. intros Hall.
  rewrite !filter_cons, IH by (intros y Hy; apply Hall; by right).
  destruct (decide (P x)) as [HP | HP], (decide (Q x)) as [HQ | HQ];
    try done; exfalso; apply (Hall x) in HP || apply (Hall x) in HQ;
    done || by left.
Qed.

Lemma broadcast_fold (socket : string → Socket) (data : string)
    (l : list string) :
  ∀ cs snt,
    foldl (broadcast_step socket data) (mkState cs snt) l
    = mkState
        (filter (fun c => ¬ (c ∈ l ∧ readyState (socket c) = 1%Z
                            ∧ is_Some (send_error (socket c)))) cs)
        (snt ++ ((fun c => (c, data))
                 <$> filter (fun c => readyState (socket c) = 1%Z
                                      ∧ send_error (socket c) = None) l)).
Proof.
  induction l as [| c l IH]; intros cs snt; simpl.
  - rewrite app_nil_r. f_equal. symmetry. apply filter_all.
    intros x _ [Hin _]. by apply elem_of_nil in Hin.
  - unfold broadcast_step at 2. rewrite filter_cons.
    destruct (readyState (socket c) =? 1)%Z eqn:Hopen.
    + apply Z.eqb_eq in Hopen.
      destruct (send_error (socket c)) as [err |] eqn:Hsend; simpl.
      * rewrite IH. rewrite decide_False by (intros [_ ?]; done).
        f_equal. unfold set_delete. rewrite list_filter_filter.
        apply list_filter_iff. intros x. rewrite elem_of_cons. split.
        -- intros [Hx Hne] [[-> | Hin] Hbad]; [done |]. apply Hx. tauto.
        -- intros Hx. split.
           ++ intros [Hin Hbad]. apply Hx. tauto.
           ++ intros ->. apply Hx. rewrite Hsend. split; [by left |].
              split; [done | by eexists].
      * rewrite IH. rewrite decide_True by done. csimpl.
        rewrite <- app_assoc. f_equal.
        apply list_filter_iff. intros x. rewrite elem_of_cons. split.
        -- intros Hx [[-> | Hin] (Ho & e & He)]; [congruence |].
           apply Hx. split; [done |]. split; [done | by exists e].
        -- intros Hx [Hin Hbad]. apply Hx. tauto.
    + apply Z.eqb_neq in Hopen. rewrite IH.
      rewrite decide_False by (intros [? _]; done). f_equal.
      apply list_filter_iff. intros x. rewrite elem_of_cons. split.
      * intros Hx [[-> | Hin] (Ho & Hbad)]; [done |]. apply Hx. tauto.
      * intros Hx [Hin Hbad]. apply Hx. tauto.
Qed.

Lemma broadcast_spec (socket : string → Socket)
    (message : list (string * JsValue)) (data : string) (st : state) :
  serialise message = Ok data →
  broadcast socket message st
  = (mkState
       (filter (fun c => ¬ (readyState (socket c) = 1%Z
                           ∧ is_Some (send_error (socket c)))) (clients st))
       (sent st ++ ((fun c => (c, data))
                    <$> filter (fun c => readyState (socket c) = 1%Z
                                         ∧ send_error (socket c) = None)
                               (clients st))),
     Ok tt).
Proof.
  intros Hdata. unfold broadcast. rewrite Hdata. f_equal.
  destruct st as [cs snt]. simpl. rewrite broadcast_fold. f_equal.
  apply filter_ext_in. intros x Hin. tauto.
Qed.

(** X22. A broadcast of a message that serialises sends the one frame to
    every client that is open and whose [send] works, in the order they
    connected; it drops exactly the open clients whose [send] throws, and a
    client that is not open stays registered. *)
Theorem broadcast_reaches_open_clients (socket : string → Socket)
    (message : list (string * JsValue)) (data : string) (st : state) :
  serialise message = Ok data →
  broadcast socket message st
  = (mkState
       (filter (fun c => ¬ (readyState (socket c) = 1%Z
                           ∧ is_Some (send_error (socket c)))) (clients st))
       (sent st ++ ((fun c => (c, data))
                    <$> filter (fun c => readyState (socket c) = 1%Z
                                         ∧ send_error (socket c) = None)
                               (clients st))),
     Ok tt).
Proof. apply broadcast_spec. Qed.

Lemma broadcast_reaches_open_clients_witness :
  ∃ data, broadcast three_sockets ping three_clients
          = (mkState ["open"; "closing"] [("open", data)], Ok tt).
Proof.
  eexists.
  rewrite (broadcast_reaches_open_clients three_sockets ping _ three_clients
             eq_refl).
  reflexivity.
Defined.

End BroadcastFacts.

Section RecordEntryFacts.
Import RealTimeClients NodeScope.



Lemma entry_message_throws (toISOString : Z → string) (e : Entry)
    (err : JsError) :
  stringify (content e) = Throw err →
  serialise [("type", JStr "entry"); ("data", entry_json toISOString e)]
  = Throw err.
Proof.
  intros Hc. unfold serialise, entry_json. simpl. by rewrite Hc.
Qed.

Lemma row_of_throws (e : Entry) (err : JsError) :
  stringify (content e) = Throw err → Sql.row_of e = Throw err.
Proof.
  intros Hc. pose proof (stringify_roundtrip (content e)) as H.
  rewrite Hc in H. unfold Sql.row_of, Sql.content_param.
  destruct (Sql.json_roundtrip (content e)) as [r | e']; [done |].
  by subst.
Qed.



(** X24. With NodeScope enabled and an entry that passes the filter but
    whose content does not serialise, [recordEntry] rejects with the error
    of [JSON.stringify] and no client receives a frame; a relational
    backend has stored nothing, while with [realtime] on the in-process
    backend has stored the entry by the time the broadcast throws. *)
Theorem recordEntry_rejects_unserialisable (toISOString : Z → string)
    (socket : string → Socket) (config : Config) (entry : Entry)
    (ns : NodeScope.state) (err : JsError) :
  enabled config = true → filter config = None → tag config = None →
  realtime config = true →
  stringify (content entry) = Throw err →
  let r := recordEntry toISOString socket config entry ns in
  r.2 = Rejected err
  ∧ realTimeServer r.1 = realTimeServer ns
  ∧ match storage ns with
    | Memory _ => StorageAdapter.find (id entry) (storage r.1) = Some entry
    | _ => storage r.1 = storage ns
    end.
Proof.
  intros Hen Hfilter Htag Hrt Hthrow. unfold recordEntry.
  rewrite Hen, Hfilter, Htag, Hrt. simpl.
  pose proof (row_of_throws entry err Hthrow) as Hrow.
  destruct (storage ns) as [st | t | t | t] eqn:Hst; simpl.
  - unfold broadcastEntry, broadcast.
    rewrite (entry_message_throws toISOString entry err Hthrow). simpl.
    split; [done |]. split; [done |]. apply memory_save_find.
  - unfold SQLiteStorage.save, Sql.insert_or_replace. rewrite Hrow. simpl.
    by rewrite Hst.
  - unfold MySQLStorage.save, Sql.insert_or_update. rewrite Hrow. simpl.
    by rewrite Hst.
  - unfold PostgreSQLStorage.save, Sql.insert_or_update. rewrite Hrow. simpl.
    by rewrite Hst.
Qed.

Lemma recordEntry_rejects_unserialisable_witness :
  let r := recordEntry iso_stub three_sockets default_config bigint_entry
             fresh_instance in
  r.2 = Rejected (TypeError "Do not know how to serialize a BigInt")
  ∧ StorageAdapter.find "q1" (storage r.1) = Some bigint_entry.
Proof.
  destruct (recordEntry_rejects_unserialisable iso_stub three_sockets
              default_config bigint_entry fresh_instance
              (TypeError "Do not know how to serialize a BigInt")
              eq_refl eq_refl eq_refl eq_refl eq_refl) as (H1 & _ & H3).
  split; [exact H1 | exact H3].
Defined.

End RecordEntryFacts.

(* ===================================================================== *)
(** * Routes of the API handler that carry an id *)
(* ===================================================================== *)

Section IdRouteFacts.
Import ApiHandler.

Lemma substring_all (s : string) : String.substring 0 (String.length s) s = s.
Proof. induction s as [| c s IH]; [done |]. simpl. by rewrite IH. Qed.

Lemma append_empty_r (s : string) : s +:+ "" = s.
Proof.
  induction s as [| c s IH]; [done |].
  change (String c (s +:+ "") = String c s). by f_equal.
Qed.

Lemma append_char_l (acc : string) (c : ascii) (k : string) :
  (acc +:+ String c "") +:+ k = acc +:+ String c k.
Proof.
  induction acc as [| a acc IH]; [done |].
  change (String a ((acc +:+ String c "") +:+ k)
          = String a (acc +:+ String c k)). by f_equal.
Qed.

Lemma last_segment_no_slash (k : string) :
  ∀ acc, no_slash k = true → last_segment acc k = acc +:+ k.
Proof.
  induction k as [| c k IH]; intros acc; simpl.
  - intros _. by rewrite append_empty_r.
  - intros [Hc Hk]%andb_true_iff. apply negb_true_iff in Hc. rewrite Hc.
    rewrite IH by done. apply append_char_l.
Qed.

Lemma truthy_nonempty (k : string) : k ≠ "" → truthy k = true.
Proof. intros Hk. unfold truthy. by destruct k. Qed.

(** X25. A [GET] whose pathname is [/api/entries/] followed by an id (not
    empty, without a slash) is answered by [getEntry] for exactly that id:
    status 200 with the entry when the backend finds it, status 404 with
    [Entry not found] when it does not. With [/api/batch/] it is answered
    by [getBatch] for that id. *)
Theorem handle_routes_ids (pf : Platform) (storage : Adapter)
    (req : ApiRequest) (k : string) :
  method req = "GET" → k ≠ "" → no_slash k = true →
  (url_pathname pf (url req) = Ok ("/api/entries/" +:+ k) →
   handle pf storage req = getEntry storage k
   ∧ (find storage k = Fulfilled None →
      handle pf storage req
      = Fulfilled (mkResponse 404 (BError "Entry not found")))
   ∧ (∀ e, find storage k = Fulfilled (Some e) →
           handle pf storage req = Fulfilled (mkResponse 200 (BEntry e))))
  ∧ (url_pathname pf (url req) = Ok ("/api/batch/" +:+ k) →
     handle pf storage req = getBatch storage k).
Proof.
  intros Hm Hk Hns.
  pose proof (truthy_nonempty k Hk) as Htr.
  pose proof (last_segment_no_slash k "" Hns) as Hlast.
  change ("" +:+ k) with k in Hlast.
  assert (String.prefix "" k = true) as Hpre by by destruct k.
  split.
  - intros Hpath.
    assert (handle pf storage req = getEntry storage k) as Hroute.
    { unfold handle. rewrite Hpath, Hm.
      unfold matches_segment, String.append. simpl.
      rewrite Nat.sub_0_r, substring_all, Htr, Hns. unfold startsWith.
      rewrite Hpre. simpl. by rewrite Hlast. }
    split; [done |]. rewrite Hroute. unfold getEntry.
    split; [by intros -> | by intros e ->].
  - intros Hpath. unfold handle. rewrite Hpath, Hm.
    unfold matches_segment, String.append. simpl.
    rewrite Nat.sub_0_r, substring_all, Htr, Hns. unfold startsWith.
    rewrite Hpre. simpl. by rewrite Hlast.
Qed.

Lemma handle_routes_ids_witness :
  handle sample_platform failing_storage
    (mkRequest "GET" "/api/entries/abc?x=1" [] JUndefined)
  = Rejected (Error "connection lost").
Proof.
  destruct (handle_routes_ids sample_platform failing_storage
              (mkRequest "GET" "/api/entries/abc?x=1" [] JUndefined) "abc"
              eq_refl) as [Hentry _]; [done | done |].
  destruct (Hentry eq_refl) as [-> _]. reflexivity.
Defined.

End IdRouteFacts.

(* ===================================================================== *)
(** * The log, event and job watchers *)
(* ===================================================================== *)

Section LogWatcherFacts.
Import LogWatcher.

(** X26. The log watcher records a message exactly when its level is not
    below the configured minimum (with the default minimum, always), and
    a recorded entry carries the tag [error] exactly when the level is
    [error]. *)
Theorem log_record_threshold (w : watcher) (d : LogData) (env : Env) :
  (record w d env = None
   ↔ (LOG_LEVEL_PRIORITY (level d) < LOG_LEVEL_PRIORITY (minLevel w))%Z)
  ∧ (minLevel w = debug → record w d env ≠ None)
  ∧ (∀ e, record w d env = Some e →
          type e = log ∧ ("error" ∈ tags e ↔ level d = error)).
Proof.
  unfold record.
  destruct (LOG_LEVEL_PRIORITY (level d) <? LOG_LEVEL_PRIORITY (minLevel w))%Z
    eqn:Hlt.
  - apply Z.ltb_lt in Hlt. split; [done |]. split; [| done].
    intros Hmin. rewrite Hmin in Hlt. destruct (level d); simpl in Hlt; lia.
  - apply Z.ltb_ge in Hlt. split; [split; [done | lia] |]. split; [done |].
    intros e [= <-]. split; [done |]. simpl.
    assert (∀ c, "error" ≠ "channel:" +:+ c) as Hchan.
    { intros c. unfold String.append. simpl. discriminate. }
    assert (∀ l, "error" ≠ "level:" +:+ level_name l) as Hlev.
    { intros l. by destruct l; vm_compute. }
    pose proof (Hlev (level d)) as Hl.
    destruct (level d); simpl in *;
      destruct (truthy_opt (channel d)) as [c |]; simpl;
      try pose proof (Hchan c);
      rewrite ?elem_of_cons, ?elem_of_nil; intuition congruence.
Qed.

End LogWatcherFacts.

Section EventWatcherFacts.
Import EventWatcher.

Lemma includes_empty (s : string) : includes s "" = true.
Proof. unfold includes. by destruct s. Qed.

(** X27. The event watcher drops an event exactly when its name contains
    one of the ignore patterns as a substring; an empty pattern is
    contained in every name, so it drops every event, and with no pattern
    every event is recorded. *)
Theorem event_record_ignores_by_substring (w : watcher) (d : EventData)
    (env : Env) :
  (record w d env = None
   ↔ ∃ pattern, pattern ∈ ignorePatterns w
                ∧ includes (name d) pattern = true)
  ∧ ("" ∈ ignorePatterns w → record w d env = None)
  ∧ (ignorePatterns w = [] → record w d env ≠ None).
Proof.
  assert (record w d env = None
          ↔ ∃ pattern, pattern ∈ ignorePatterns w
                       ∧ includes (name d) pattern = true) as Hiff.
  { unfold record.
    destruct (existsb _ (ignorePatterns w)) eqn:Hex.
    - split; [intros _ | done].
      apply existsb_exists in Hex as (p & Hin & Hp).
      exists p. split; [by apply list_elem_of_In | done].
    - split; [done |]. intros (p & Hin & Hp).
      assert (existsb (fun pattern => includes (name d) pattern)
                      (ignorePatterns w) = true) as Htrue.
      { apply existsb_exists. exists p.
        split; [by apply list_elem_of_In | done]. }
      congruence. }
  split; [exact Hiff |]. split.
  - intros Hin. apply Hiff. exists "". split; [done | apply includes_empty].
  - intros Hnil Hnone. apply Hiff in Hnone as (p & Hin & _).
    rewrite Hnil in Hin. by apply elem_of_nil in Hin.
Qed.

End EventWatcherFacts.

Section JobTrackerFacts.
Import JobWatcher.

Lemma starts_snoc (calls : list TrackerCall) (c : TrackerCall) :
  starts (calls ++ [c])
  = (starts calls + if is_start c then 1 else 0)%Z.
Proof.
  unfold starts. rewrite filter_app, length_app, filter_cons, filter_nil.
  destruct c; simpl; lia.
Qed.

Lemma tracker_run (env : Env) (t0 : tracker) (calls : list TrackerCall) :
  let r := foldl (tracker_call env) (t0, []) calls in
  length r.2 = length calls
  ∧ t_attempts r.1 = (t_attempts t0 + starts calls)%Z
  ∧ ∀ i e, r.2 !! i = Some e →
           get_prop "attempts" (content e)
           = JNum (t_attempts t0 + starts (take (S i) calls)).
Proof.
  induction calls as [| c calls IH] using rev_ind.
  - simpl. split; [done |]. split; [unfold starts; simpl; lia | done].
  - rewrite foldl_app. simpl.
    set (r := foldl (tracker_call env) (t0, []) calls) in *.
    destruct IH as (Hlen & Hatt & Hold).
    assert (∀ e, (tracker_call env r c).2 = r.2 ++ [e] →
                 get_prop "attempts" (content e)
                 = JNum (t_attempts t0 + starts (calls ++ [c])) →
                 length (tracker_call env r c).2 = length (calls ++ [c])
                 ∧ ∀ i e', (tracker_call env r c).2 !! i = Some e' →
                     get_prop "attempts" (content e')
                     = JNum (t_attempts t0
                             + starts (take (S i) (calls ++ [c])))) as Hnew.
    { intros e -> He. split; [rewrite !length_app; simpl; lia |].
      intros i e' Hi. destruct (decide (i < length calls)%nat) as [Hlt | Hge].
      - rewrite lookup_app_l in Hi by lia.
        rewrite take_app_le by lia. by apply Hold.
      - assert (i = length calls) as ->.
        { apply lookup_lt_Some in Hi. rewrite length_app in Hi.
          simpl in Hi. lia. }
        rewrite list_lookup_middle in Hi by done. injection Hi as <-.
        rewrite take_ge by (rewrite length_app; simpl; lia). done. }
    rewrite starts_snoc.
    destruct c as [| dur | err dur]; simpl.
    + destruct (Hnew (start r.1 env).2) as [H1 H2]; [done | |].
      * rewrite starts_snoc. simpl. rewrite Hatt. f_equal. lia.
      * split; [exact H1 |]. split; [rewrite Hatt; lia | exact H2].
    + destruct (Hnew (complete r.1 dur env)) as [H1 H2]; [done | |].
      * rewrite starts_snoc. simpl. rewrite Hatt. f_equal. lia.
      * split; [exact H1 |]. split; [rewrite Hatt; lia | exact H2].
    + destruct (Hnew (fail r.1 err dur env)) as [H1 H2]; [done | |].
      * rewrite starts_snoc. simpl. rewrite Hatt. f_equal. lia.
      * split; [exact H1 |]. split; [rewrite Hatt; lia | exact H2].
Qed.

(** X28. Every entry a job tracker records reports as [attempts] the
    number of [start] calls made on the tracker so far, the recording call
    included; [complete] or [fail] before any [start] reports 0, not the
    default 1 of [record]. *)
Theorem job_tracker_reports_starts (env : Env) (name : string)
    (batchId queue : option string) (data : JsValue) (maxAttempts : option Z)
    (calls : list TrackerCall) :
  let entries :=
    (foldl (tracker_call env)
           (createJobTracker name batchId queue data maxAttempts, []) calls).2 in
  length entries = length calls
  ∧ ∀ i e, entries !! i = Some e →
           get_prop "attempts" (content e)
           = JNum (starts (take (S i) calls)).
Proof.
  destruct (tracker_run env
              (createJobTracker name batchId queue data maxAttempts) calls)
    as (Hlen & _ & Hall).
  split; [exact Hlen |]. intros i e Hi. by rewrite (Hall i e Hi).
Qed.

End JobTrackerFacts.

(* ===================================================================== *)
(** * Batches of saves, and the totals of [list] and [stats] *)
(* ===================================================================== *)

Section BatchSaveFacts.

Lemma insert_all_app
    (ins : Entry → gmap string Sql.Row → result (gmap string Sql.Row))
    (es1 es2 : list Entry) :
  ∀ t, Sql.insert_all ins (es1 ++ es2) t
       = bind (Sql.insert_all ins es1 t) (Sql.insert_all ins es2).
Proof.
  induction es1 as [| e es1 IH]; intros t; simpl; [done |].
  destruct (ins e t) as [t1 | err]; simpl; [apply IH | done].
Qed.

Lemma insert_all_one
    (ins : Entry → gmap string Sql.Row → result (gmap string Sql.Row))
    (e : Entry) (t : gmap string Sql.Row) :
  Sql.insert_all ins [e] t = ins e t.
Proof. simpl. by destruct (ins e t). Qed.

(** X29. [saveBatch] is [save] entry by entry: a batch of one entry is a
    [save], and a batch that is two lists in a row succeeds exactly when
    the first list succeeds and the second succeeds on what the first
    leaves, with the same final content. *)
Theorem saveBatch_is_save_by_save (s : Storage) :
  (∀ e, Statistics.saveBatch [e] s = StorageAdapter.save e s)
  ∧ ∀ es1 es2 s',
      Statistics.saveBatch (es1 ++ es2) s = Ok s'
      ↔ ∃ s1, Statistics.saveBatch es1 s = Ok s1
              ∧ Statistics.saveBatch es2 s1 = Ok s'.
Proof.
  split.
  - intros e. destruct s as [st | t | t | t]; simpl; try done.
    + unfold SQLiteStorage.saveBatch, SQLiteStorage.save.
      by rewrite insert_all_one.
    + unfold MySQLStorage.saveBatch, MySQLStorage.save.
      by rewrite insert_all_one.
    + unfold PostgreSQLStorage.saveBatch, PostgreSQLStorage.save.
      by rewrite insert_all_one.
  - intros es1 es2 s'. destruct s as [st | t | t | t]; simpl.
    + unfold MemoryStorage.saveBatch. rewrite foldl_app. split.
      * intros [= <-]. by eexists.
      * by intros (s1 & [= <-] & [= <-]).
    + unfold SQLiteStorage.saveBatch. rewrite insert_all_app.
      destruct (Sql.insert_all _ es1 t) as [t1 | err]; simpl.
      * split; [intros H; by eexists | by intros (s1 & [= <-] & H)].
      * split; [done | by intros (s1 & H & _)].
    + unfold MySQLStorage.saveBatch. rewrite insert_all_app.
      destruct (Sql.insert_all _ es1 t) as [t1 | err]; simpl.
      * split; [intros H; by eexists | by intros (s1 & [= <-] & H)].
      * split; [done | by intros (s1 & H & _)].
    + unfold PostgreSQLStorage.saveBatch. rewrite insert_all_app.
      destruct (Sql.insert_all _ es1 t) as [t1 | err]; simpl.
      * split; [intros H; by eexists | by intros (s1 & [= <-] & H)].
      * split; [done | by intros (s1 & H & _)].
Qed.

(** X30. A [list] request without filters reports as [total] the number
    [stats] reports as [totalEntries], whatever its page settings. *)
Theorem list_unfiltered_total_is_stats_total (like : string → JsValue → bool)
    (lim off : nat) (s : Storage) :
  ∃ r, StorageAdapter.list like (with_page every_entry lim off) s = Ok r
       ∧ total r = totalEntries (Statistics.stats s).
Proof.
  destruct s as [st | t | t | t]; simpl.
  - unfold MemoryStorage.list. simpl. eexists. split; [done |]. simpl.
    rewrite sort_by_length. unfold MemoryStorage.candidates. simpl.
    unfold map_values. by rewrite length_fmap.
  - eexists. split; [done |]. simpl. unfold Sql.select_count. f_equal.
    by apply filter_all.
  - eexists. split; [done |]. simpl. unfold Sql.select_count. f_equal.
    by apply filter_all.
  - eexists. split; [done |]. simpl. unfold Sql.select_count. f_equal.
    by apply filter_all.
Qed.

End BatchSaveFacts.
